(** * A user registry served over HTTP: model of [main.py] and its properties

    The service keeps user records in one in-memory dictionary [users_db],
    keyed by a generated identifier.  Five handlers work on it: create,
    list, delete, bulk import from an uploaded CSV table, and the average
    age grouped by the first letter of the name.

    The handlers are embedded as functions on an explicit state.  What the
    handlers obtain from libraries (fresh identifiers, Python's [int] and
    [str] on text and floats, pandas' numeric coercion, [str.upper]) is
    gathered in the class [Runtime]; every general statement below holds
    for all runtimes.  The averages are computed in binary64, as pandas
    and NumPy compute them. *)

From Stdlib Require Import ZArith QArith Qround String Ascii List Lia.
From Stdlib Require Import SpecFloat.
From stdpp Require Import base option list gmap fin_maps strings pretty.

Local Open Scope string_scope.
Local Open Scope list_scope.

(** ** Values *)

(** The Python values that occur in table cells and in the [age] entry of a
    stored dictionary: text, integers, finite floats and NaN. *)
Inductive pyval : Type :=
  | VStr (s : string)
  | VInt (z : Z)
  | VFloat (q : Q)
  | VNaN.

(** [HTTPException(status_code=..., detail=...)]. *)
Record HTTPException : Type := {
  status_code : Z;
  detail : string
}.

(** The request body of a create: [class UserCreate(BaseModel)]. *)
Module UserCreate.
Record t : Type := { name : string; age : Z }.
End UserCreate.

(** [class User(BaseModel)]: a validated user with its identifier. *)
Module User.
Record t : Type := { id : string; name : string; age : Z }.
End User.

(** The dictionaries held in [users_db].  The handlers only store what
    [User.model_dump()] produces, but the dictionary type itself does not
    constrain the [age] entry (the tests put text there). *)
Module Stored.
Record t : Type := { id : string; name : string; age : pyval }.
End Stored.

(** [User.model_dump()]. *)
Definition model_dump (u : User.t) : Stored.t :=
  {| Stored.id := User.id u;
     Stored.name := User.name u;
     Stored.age := VInt (User.age u) |}.

(** ** Binary64 numbers

    The floats of Python, pandas and NumPy, with the operations of the
    standard library's specification of IEEE 754 arithmetic (rounding to
    nearest, ties to even). *)

Definition float64 : Type := spec_float.

Definition f64_zero : float64 := S754_zero false.

(** The float nearest to an integer: the cast of an int64 to float64. *)
Definition f64_of_Z (z : Z) : float64 := binary_normalize 53 1024 z 0 false.

Definition f64_add : float64 → float64 → float64 := SFadd 53 1024.
Definition f64_sub : float64 → float64 → float64 := SFsub 53 1024.
Definition f64_mul : float64 → float64 → float64 := SFmul 53 1024.
Definition f64_div : float64 → float64 → float64 := SFdiv 53 1024.

(** The float nearest to a fraction whose numerator and denominator are
    below 2^53; a float is the image of its own value. *)
Definition f64_of_Q (q : Q) : float64 :=
  f64_div (f64_of_Z (Qnum q)) (f64_of_Z (Zpos (Qden q))).

Definition f64_is_nan (x : float64) : bool :=
  match x with S754_nan => true | _ => false end.

(** [rint]: the nearest whole number, ties to the even one. *)
Definition f64_rint (x : float64) : float64 :=
  match x with
  | S754_finite s m e =>
      if (0 <=? e)%Z then x
      else
        let d := (2 ^ (- e))%Z in
        let q := (Zpos m / d)%Z in
        let r := (Zpos m mod d)%Z in
        let n := match (2 * r ?= d)%Z with
                 | Lt => q
                 | Gt => (q + 1)%Z
                 | Eq => if Z.even q then q else (q + 1)%Z
                 end in
        binary_normalize 53 1024 (if s then (- n)%Z else n) 0 s
  | _ => x
  end.

(** The number a float stands for; infinities and NaN stand for none. *)
Definition f64_value (x : float64) : option Q :=
  match x with
  | S754_zero _ => Some 0%Q
  | S754_finite s m e =>
      Some (Qred (inject_Z (if s then Zneg m else Zpos m) * Qpower 2 e))
  | _ => None
  end.

#[global] Instance float64_eq_dec : EqDecision float64.
Proof. solve_decision. Defined.

(** ** What the libraries provide *)

Class Runtime : Type := {
  (** [str(uuid.uuid4())] at its n-th call in the process *)
  uuid4 : nat → string;
  (** [int(s)] for text [s]; [None] when it raises *)
  int_of_str : string → option Z;
  (** [str(x)] for a finite float [x] *)
  str_of_float : Q → string;
  (** [pd.to_numeric(s, errors='coerce')] for text [s]; [None] is NaN *)
  numeric_of_str : string → option float64;
  (** [s.upper()] *)
  str_upper : string → string
}.

(** ** The state of the process *)

(** The dictionary [users_db] is held as its finite map together with
    [key_order], the keys in the order in which they were inserted, which
    is the order in which a dictionary lists its entries. *)
Record State : Type := {
  users_db : gmap string Stored.t;
  key_order : list string;
  uuid_calls : nat
}.

Definition initial_state : State :=
  {| users_db := ∅; key_order := []; uuid_calls := 0 |}.

(** The keys as the dictionary lists them.  When [key_order] names every
    key once, as in every state the handlers produce, this is [key_order];
    keys it does not name come last. *)
Definition dict_keys (σ : State) : list string :=
  let known :=
    remove_dups (filter (λ k, is_Some (users_db σ !! k)) (key_order σ)) in
  known ++ filter (λ k, k ∉ known) (map_to_list (users_db σ)).*1.

(** [list(users_db.values())] *)
Definition users_list (σ : State) : list Stored.t :=
  omap (λ k, users_db σ !! k) (dict_keys σ).

(** [key_order] names every key of the dictionary once. *)
Definition ordered (σ : State) : Prop :=
  NoDup (key_order σ)
  ∧ ∀ k, k ∈ key_order σ ↔ is_Some (users_db σ !! k).

(** [users_db.values()] *)
Definition values (db : gmap string Stored.t) : list Stored.t :=
  (map_to_list db).*2.

(** [any(u['name'] == n for u in users_db.values())] *)
Definition name_exists (db : gmap string Stored.t) (n : string) : bool :=
  existsb (λ u, String.eqb (Stored.name u) n) (values db).

(** The errors of the specification, as the exceptions the handlers raise. *)
Definition DuplicateName (n : string) : HTTPException :=
  {| status_code := 400;
     detail := "User with name '" +:+ n +:+ "' already exists" |}.

Definition NotFound : HTTPException :=
  {| status_code := 404; detail := "User not found" |}.

Definition InvalidFileType : HTTPException :=
  {| status_code := 400;
     detail := "Invalid file type. Please upload a CSV file." |}.

(** [e] is the text of the exception that decoding or [pd.read_csv]
    raised. *)
Definition InputMalformed (e : string) : HTTPException :=
  {| status_code := 400; detail := "Error processing CSV file: " +:+ e |}.

Definition SchemaMismatch : HTTPException :=
  {| status_code := 400;
     detail := "CSV must contain 'Name' and 'Age' columns." |}.

(** ** Tables *)

(** A table as [pd.read_csv] returns it: the column labels and, per data
    row, the cells in column order. *)
Record DataFrame : Type := {
  columns : list string;
  data : list (list pyval)
}.

(** A row as [df.iterrows()] yields it: the cells indexed by column label. *)
Definition Series : Type := list (string * pyval).

Definition is_text (v : pyval) : bool :=
  match v with VStr _ => true | _ => false end.

Definition is_float (v : pyval) : bool :=
  match v with VFloat _ | VNaN => true | _ => false end.

(** The rows come from [df.values], one array for the whole table.  It is
    an array of float64 when no column holds text and some column holds
    floats (a column with a missing cell is one of floats); the integers
    of the table are then cast to floats, each to the float nearest to it
    (the integers of a table fit in 64 bits, so there is one). *)
Definition values_float64 (df : DataFrame) : bool :=
  forallb (forallb (λ v, negb (is_text v))) (data df)
  && existsb (existsb is_float) (data df).

Definition as_float64 (v : pyval) : pyval :=
  match v with
  | VInt z =>
      match f64_value (f64_of_Z z) with
      | Some q => VFloat q
      | None => v
      end
  | _ => v
  end.

Definition iterrows (df : DataFrame) : list Series :=
  map (λ cells,
         zip (columns df)
             (if values_float64 df then map as_float64 cells else cells))
      (data df).

(** [row[label]]; [None] stands for [KeyError]. *)
Fixpoint getitem (row : Series) (label : string) : option pyval :=
  match row with
  | [] => None
  | (k, v) :: rest => if String.eqb k label then Some v else getitem rest label
  end.

(** [row.get(label, d)] *)
Definition get (row : Series) (label : string) (d : pyval) : pyval :=
  default d (getitem row label).

(** The uploaded file: its declared content type and what decoding its
    contents and [pd.read_csv] make of them: the table, or [None] when
    either raises, and then [read_error] is the text of the exception. *)
Record UploadFile : Type := {
  content_type : string;
  read_csv : option DataFrame;
  read_error : string
}.

(** The response of a successful upload. *)
Module Report.
Record t : Type := {
  message : string;
  added_users : nat;
  skipped_users : nat;
  skipped_names : list string
}.
End Report.

(** The local variables of the import loop. *)
Record Counters : Type := {
  added_count : nat;
  skipped_count : nat;
  skipped_names : list string
}.

(** [{'Name', 'Age'}.issubset(df.columns)] *)
Definition has_required_columns (df : DataFrame) : bool :=
  forallb (λ c, existsb (String.eqb c) (columns df)) ["Name"; "Age"].

(** ** Characters

    Text is held as its UTF-8 bytes, so a character is a sequence of one
    to four bytes whose length the first byte tells. *)

Definition utf8_width (c : ascii) : nat :=
  let n := nat_of_ascii c in
  if (n <? 192)%nat then 1%nat
  else if (n <? 224)%nat then 2%nat
  else if (n <? 240)%nat then 3%nat
  else 4%nat.

(** [s[0]], the first character of the text; [None] when the text is
    empty. *)
Definition first_char (s : string) : option string :=
  match s with
  | EmptyString => None
  | String c _ => Some (String.substring 0 (utf8_width c) s)
  end.

(** ** Numbers of the aggregation *)

(** The response of [GET /users/average_age]: the message returned for an
    empty store, or the dictionary from group to average. *)
Inductive AverageResponse : Type :=
  | NoUsers (message : string)
  | Averages (m : gmap string float64).

(** One step of the compensated summation of pandas' [group_mean]:
    [y = val - compensation; t = sumx + y;
     compensation = t - sumx - y; sumx = t], where a compensation that is
    NaN is reset to zero. *)
Definition kahan_step (acc : float64 * float64) (val : float64)
    : float64 * float64 :=
  let '(sumx, compensation) := acc in
  let y := f64_sub val compensation in
  let t := f64_add sumx y in
  let c := f64_sub (f64_sub t sumx) y in
  (t, if f64_is_nan c then f64_zero else c).

(** [mean()] of a group: the compensated sum of its values, in row order,
    divided by their number. *)
Definition mean (ages : list float64) : float64 :=
  f64_div (fold_left kahan_step ages (f64_zero, f64_zero)).1
          (f64_of_Z (Z.of_nat (length ages))).

(** [round(2)], as NumPy rounds floats: [rint(x * 100) / 100]. *)
Definition round2 (x : float64) : float64 :=
  f64_div (f64_rint (f64_mul x (f64_of_Z 100))) (f64_of_Z 100).

(** [groupby('group')['age']]: the ages of each group in row order; rows
    whose key is NaN belong to no group. *)
Definition groupby (rows : list (option string * float64))
    : gmap string (list float64) :=
  foldr (λ r g,
           match r.1 with
           | None => g
           | Some k => <[k := r.2 :: default [] (g !! k)]> g
           end) ∅ rows.

Section Handlers.
Context `{RT : Runtime}.

(** Construction of a [User] from the dumped [UserCreate]: the identifier
    comes from the default factory, which calls [uuid.uuid4()] once. *)
Definition new_User (user_data : UserCreate.t) (σ : State) : User.t * State :=
  ({| User.id := uuid4 (uuid_calls σ);
      User.name := UserCreate.name user_data;
      User.age := UserCreate.age user_data |},
   {| users_db := users_db σ; key_order := key_order σ;
      uuid_calls := S (uuid_calls σ) |}).

(** [users_db[u.id] = u.model_dump()]: a new key goes to the end, a key
    already there keeps its place. *)
Definition store_user (u : User.t) (σ : State) : State :=
  {| users_db := <[User.id u := model_dump u]> (users_db σ);
     key_order := if decide (is_Some (users_db σ !! User.id u))
                  then key_order σ
                  else key_order σ ++ [User.id u];
     uuid_calls := uuid_calls σ |}.

(** [POST /users] *)
Definition create_user (user_in : UserCreate.t) (σ : State)
    : (HTTPException + User.t) * State :=
  let '(new_user, σ1) := new_User user_in σ in
  if name_exists (users_db σ1) (User.name new_user)
  then (inl (DuplicateName (User.name new_user)), σ1)
  else (inr new_user, store_user new_user σ1).

(** [GET /users] *)
Definition get_users (σ : State) : list Stored.t := users_list σ.

(** [DELETE /users/{user_id}] *)
Definition delete_user (user_id : string) (σ : State)
    : (HTTPException + unit) * State :=
  match users_db σ !! user_id with
  | None => (inl NotFound, σ)
  | Some _ =>
      (inr tt, {| users_db := delete user_id (users_db σ);
                  key_order := filter (λ k, k ≠ user_id) (key_order σ);
                  uuid_calls := uuid_calls σ |})
  end.

(** [int(v)]: text is parsed, a float is truncated toward zero, NaN
    raises. *)
Definition py_int (v : pyval) : option Z :=
  match v with
  | VStr s => int_of_str s
  | VInt z => Some z
  | VFloat q => Some (Z.quot (Qnum q) (Zpos (Qden q)))
  | VNaN => None
  end.

(** [str(v)] *)
Definition py_str (v : pyval) : string :=
  match v with
  | VStr s => s
  | VInt z => pretty z
  | VFloat q => str_of_float q
  | VNaN => "nan"
  end.

(** [UserCreate(name=row['Name'], age=int(row['Age']))]; [None] when the
    expression raises: a missing label, [int] failing, or a name that is
    not text (the model validates [name: str]). *)
Definition row_UserCreate (row : Series) : option UserCreate.t :=
  nm ← getitem row "Name";
  ag ← getitem row "Age";
  a ← py_int ag;
  match nm with
  | VStr s => Some {| UserCreate.name := s; UserCreate.age := a |}
  | _ => None
  end.

(** The body of [for _, row in df.iterrows()], with its [try]/[except]. *)
Definition loop_body (acc : State * Counters) (row : Series)
    : State * Counters :=
  let '(σ, c) := acc in
  match row_UserCreate row with
  | Some user_data =>
      if name_exists (users_db σ) (UserCreate.name user_data)
      then (σ, {| added_count := added_count c;
                  skipped_count := skipped_count c + 1;
                  skipped_names :=
                    skipped_names c ++ [UserCreate.name user_data] |})
      else
        let '(new_user, σ1) := new_User user_data σ in
        (store_user new_user σ1,
         {| added_count := added_count c + 1;
            skipped_count := skipped_count c;
            skipped_names := skipped_names c |})
  | None =>
      (σ, {| added_count := added_count c;
             skipped_count := skipped_count c + 1;
             skipped_names :=
               skipped_names c ++ [py_str (get row "Name" (VStr "N/A"))] |})
  end.

Definition import_rows (rows : list Series) (acc : State * Counters)
    : State * Counters :=
  fold_left loop_body rows acc.

(** [POST /users/upload_csv] *)
Definition upload_users_csv (file : UploadFile) (σ : State)
    : (HTTPException + Report.t) * State :=
  if negb (String.eqb (content_type file) "text/csv")
  then (inl InvalidFileType, σ)
  else
    match read_csv file with
    | None => (inl (InputMalformed (read_error file)), σ)
    | Some df =>
        if negb (has_required_columns df)
        then (inl SchemaMismatch, σ)
        else
          let '(σ', c) :=
            import_rows (iterrows df)
              (σ, {| added_count := 0; skipped_count := 0;
                     skipped_names := [] |}) in
          (inr {| Report.message := "Processed CSV file.";
                  Report.added_users := added_count c;
                  Report.skipped_users := skipped_count c;
                  Report.skipped_names := skipped_names c |}, σ')
    end.

(** [name.str[0].str.upper()]; the first character of an empty name is
    NaN, here [None]. *)
Definition group_of (n : string) : option string :=
  str_upper <$> first_char n.

(** [pd.to_numeric(v, errors='coerce')], as the float [mean()] works on;
    [None] is NaN. *)
Definition to_numeric (v : pyval) : option float64 :=
  match v with
  | VStr s => numeric_of_str s
  | VInt z => Some (f64_of_Z z)
  | VFloat q => Some (f64_of_Q q)
  | VNaN => None
  end.

(** [df.dropna(subset=['age'])] on the frame built from the records,
    reduced to its columns [group] and [age]. *)
Definition dropna (users_list : list Stored.t)
    : list (option string * float64) :=
  omap (λ u, a ← to_numeric (Stored.age u);
             Some (group_of (Stored.name u), a)) users_list.

(** [....groupby('group')['age'].mean().round(2).to_dict()] *)
Definition average_ages (users_list : list Stored.t) : gmap string float64 :=
  (λ ages, round2 (mean ages)) <$> groupby (dropna users_list).

(** [GET /users/average_age] *)
Definition get_average_age_by_group (σ : State) : AverageResponse :=
  if decide (users_db σ = ∅)
  then NoUsers "No users available to calculate average age."
  else Averages (average_ages (users_list σ)).

End Handlers.

(** ** Requests *)

Inductive Request : Type :=
  | PostUser (user_in : UserCreate.t)
  | GetUsers
  | DeleteUser (user_id : string)
  | PostUploadCsv (file : UploadFile)
  | GetAverageAge.

Section Service.
Context `{RT : Runtime}.

(** The state after the service has answered a request. *)
Definition serve (σ : State) (r : Request) : State :=
  match r with
  | PostUser user_in => (create_user user_in σ).2
  | GetUsers => σ
  | DeleteUser user_id => (delete_user user_id σ).2
  | PostUploadCsv file => (upload_users_csv file σ).2
  | GetAverageAge => σ
  end.

Definition serve_all (rs : list Request) (σ : State) : State :=
  fold_left serve rs σ.

End Service.

(** A runtime for closed examples: identifiers are the call numbers in
    decimal, text is read as a number when it is a plain decimal numeral,
    and [upper] acts on ASCII letters. *)
Definition ascii_upper (c : ascii) : ascii :=
  let n := nat_of_ascii c in
  if (97 <=? n)%nat && (n <=? 122)%nat then ascii_of_nat (n - 32) else c.

Fixpoint string_map (f : ascii → ascii) (s : string) : string :=
  match s with
  | EmptyString => EmptyString
  | String c r => String (f c) (string_map f r)
  end.

Definition digit_of (c : ascii) : option Z :=
  let n := nat_of_ascii c in
  if (48 <=? n)%nat && (n <=? 57)%nat then Some (Z.of_nat (n - 48)) else None.

Fixpoint numeral (acc : Z) (s : string) : option Z :=
  match s with
  | EmptyString => Some acc
  | String c r => d ← digit_of c; numeral (10 * acc + d) r
  end.

Definition plain_int (s : string) : option Z :=
  match s with
  | EmptyString => None
  | _ => numeral 0 s
  end.

Definition example_runtime : Runtime :=
  {| uuid4 := λ n, pretty n;
     int_of_str := plain_int;
     str_of_float := λ q, pretty (Qfloor q) +:+ ".0";
     numeric_of_str := λ s, f64_of_Z <$> plain_int s;
     str_upper := string_map ascii_upper |}.

(** ** Names in the store *)

(** Some record of the store has the name [n] (exact comparison). *)
Definition has_name (db : gmap string Stored.t) (n : string) : Prop :=
  ∃ i u, db !! i = Some u ∧ Stored.name u = n.

(** No two records of the store have the same name. *)
Definition unique_names (db : gmap string Stored.t) : Prop :=
  ∀ i j u v, db !! i = Some u → db !! j = Some v →
             Stored.name u = Stored.name v → i = j.

(** The number of records of the store that have the name [n]. *)
Definition count_named (n : string) (db : gmap string Stored.t) : nat :=
  length (filter (λ u, Stored.name u = n) (values db)).

(** ** The import, row by row

    How the specification describes the import: every data row has one
    outcome, decided on the store as it is when the row is reached, and the
    report collects the outcomes in row order. *)

Inductive Outcome : Type :=
  | Added (u : User.t)
  | SkippedDuplicate (n : string)
  | SkippedError (label : string).

(** The name a skipped row is reported under. *)
Definition skipped_name (o : Outcome) : option string :=
  match o with
  | Added _ => None
  | SkippedDuplicate n => Some n
  | SkippedError label => Some label
  end.

Definition is_added (o : Outcome) : bool :=
  match o with Added _ => true | _ => false end.

(** Entering one outcome into the counters. *)
Definition count_outcome (c : Counters) (o : Outcome) : Counters :=
  match o with
  | Added _ =>
      {| added_count := added_count c + 1;
         skipped_count := skipped_count c;
         skipped_names := skipped_names c |}
  | SkippedDuplicate n | SkippedError n =>
      {| added_count := added_count c;
         skipped_count := skipped_count c + 1;
         skipped_names := skipped_names c ++ [n] |}
  end.

Section Classification.
Context `{RT : Runtime}.

(** The label of a row that raised: the text of its [Name] cell, or
    ["N/A"] when the row has no such cell. *)
Definition error_label (row : Series) : string :=
  match getitem row "Name" with
  | Some v => py_str v
  | None => "N/A"
  end.

Inductive row_step : State → Series → Outcome → State → Prop :=
  | row_error σ row :
      row_UserCreate row = None →
      row_step σ row (SkippedError (error_label row)) σ
  | row_duplicate σ row d :
      row_UserCreate row = Some d →
      has_name (users_db σ) (UserCreate.name d) →
      row_step σ row (SkippedDuplicate (UserCreate.name d)) σ
  | row_added σ row d :
      row_UserCreate row = Some d →
      ¬ has_name (users_db σ) (UserCreate.name d) →
      row_step σ row (Added (new_User d σ).1)
               (store_user (new_User d σ).1 (new_User d σ).2).

Inductive import_trace : State → list Series → list Outcome → State → Prop :=
  | trace_done σ : import_trace σ [] [] σ
  | trace_row σ row o σ1 rows os σ2 :
      row_step σ row o σ1 →
      import_trace σ1 rows os σ2 →
      import_trace σ (row :: rows) (o :: os) σ2.

(** The ages that count for the group [k]: those of the records filed
    under [k] whose age is numeric, in the order of the records. *)
Definition included_ages (k : string) (users_list : list Stored.t)
    : list float64 :=
  omap (λ u, if decide (group_of (Stored.name u) = Some k)
             then to_numeric (Stored.age u) else None) users_list.

(** Identifiers are fresh for a store when those generated from the n-th
    call on are not among its keys. *)
Definition fresh_from (db : gmap string Stored.t) (n : nat) : Prop :=
  ∀ k, (n <= k)%nat → db !! uuid4 k = None.

(** The state still holds every record of [db0] and has made at least [n0]
    identifier calls. *)
Definition extends (db0 : gmap string Stored.t) (n0 : nat) (σ : State) : Prop :=
  db0 ⊆ users_db σ ∧ (n0 <= uuid_calls σ)%nat.

End Classification.

(** ** Input constraints and aggregation keys *)

(** Every record of the store has a non-empty name. *)
Definition names_nonempty (db : gmap string Stored.t) : Prop :=
  ∀ i u, db !! i = Some u → Stored.name u ≠ "".

(** The row does not carry the empty text as its name. *)
Definition row_named (row : Series) : Prop :=
  getitem row "Name" ≠ Some (VStr "").

(** The request respects the input constraint that names are non-empty. *)
Definition request_named (r : Request) : Prop :=
  match r with
  | PostUser user_in => UserCreate.name user_in ≠ ""
  | PostUploadCsv file =>
      ∀ df, read_csv file = Some df → Forall row_named (iterrows df)
  | _ => True
  end.

(** The ages [groupby] files under the key [k], in row order. *)
Definition ages_of (k : string) (rows : list (option string * float64))
    : list float64 :=
  omap (λ r, if decide (r.1 = Some k) then Some r.2 else None) rows.

(** The record the handlers store for a user. *)
Definition stored (i n : string) (a : Z) : Stored.t :=
  {| Stored.id := i; Stored.name := n; Stored.age := VInt a |}.

(** ** The inputs of the test suite *)

Definition request (n : string) (a : Z) : UserCreate.t :=
  {| UserCreate.name := n; UserCreate.age := a |}.

Definition csv_file (df : DataFrame) : UploadFile :=
  {| content_type := "text/csv"; read_csv := Some df; read_error := "" |}.

(** The store after [POST /users] with Bob, 25. *)
Definition bob_state : State :=
  @serve_all example_runtime [PostUser (request "Bob" 25)] initial_state.

(** The store after [POST /users] with Heidi, 60. *)
Definition heidi_state : State :=
  @serve_all example_runtime [PostUser (request "Heidi" 60)] initial_state.


(** The store of [test_get_average_age_with_non_numeric_age_in_db]. *)
Definition noah_state : State :=
  {| users_db :=
       <["manual1" := stored "manual1" "Noah" 40]>
         (<["manual2" := {| Stored.id := "manual2"; Stored.name := "Nora";
                            Stored.age := VStr "invalid_age" |}]> ∅);
     key_order := ["manual1"; "manual2"];
     uuid_calls := 0 |}.

(** ["Name,Age\nFrank,50\nGrace,55"] *)
Definition frank_csv : DataFrame :=
  {| columns := ["Name"; "Age"];
     data := [[VStr "Frank"; VInt 50]; [VStr "Grace"; VInt 55]] |}.

(** ["Name,Age\nHeidi,61\nIvy,65\nJudy,"]: the missing cell is NaN, which
    makes the column one of floats. *)
Definition heidi_csv : DataFrame :=
  {| columns := ["Name"; "Age"];
     data := [[VStr "Heidi"; VFloat 61]; [VStr "Ivy"; VFloat 65];
              [VStr "Judy"; VNaN]] |}.


(** ["Name,Age\n123,\n456,"]: numbers for names and no age at all. *)
Definition numbers_csv : DataFrame :=
  {| columns := ["Name"; "Age"];
     data := [[VInt 123; VNaN]; [VInt 456; VNaN]] |}.

(** ["name\nKevin"] *)
Definition kevin_csv : DataFrame :=
  {| columns := ["name"]; data := [[VStr "Kevin"]] |}.

(** ** Identifiers and provenance of records *)

Section Provenance.
Context `{RT : Runtime}.

(** [uuid.uuid4()] never returns the same identifier twice. *)
Definition uuid4_distinct : Prop := ∀ j k, uuid4 j = uuid4 k → j = k.

(** Every record is filed under its own [id], holds an integer age, and
    its key is one of the identifiers generated so far. *)
Definition stored_by_service (σ : State) : Prop :=
  ∀ i r, users_db σ !! i = Some r →
         Stored.id r = i
         ∧ (∃ a, Stored.age r = VInt a)
         ∧ ∃ k, (k < uuid_calls σ)%nat ∧ i = uuid4 k.

(** The record [r] is what the import makes of the row: its name is the
    text of the [Name] cell and its age is [int] of the [Age] cell. *)
Definition from_row (row : Series) (r : Stored.t) : Prop :=
  ∃ v a, getitem row "Name" = Some (VStr (Stored.name r))
         ∧ getitem row "Age" = Some v
         ∧ py_int v = Some a
         ∧ Stored.age r = VInt a.


(** Some record with a numeric age is filed under the group [k]. *)
Definition contributes (k : string) (db : gmap string Stored.t) : Prop :=
  ∃ i r a, db !! i = Some r
           ∧ group_of (Stored.name r) = Some k
           ∧ to_numeric (Stored.age r) = Some a.

End Provenance.




(** The store after [POST /users] with Eve, 28, and the identifier the
    response carries. *)
Definition eve_state : State :=
  @serve_all example_runtime [PostUser (request "Eve" 28)] initial_state.

(** A row with a column beyond [Name] and [Age]. *)
Definition ivy_row : Series := [("Name", VStr "Ivy"); ("Age", VFloat 65)].

Definition ivy_row_wide : Series :=
  [("City", VStr "Oslo"); ("Age", VFloat 65); ("Name", VStr "Ivy")].

(** * Properties *)

(** ** Names in the store *)

Lemma elem_of_values (db : gmap string Stored.t) (u : Stored.t) :
  u ∈ values db ↔ ∃ i, db !! i = Some u.
Proof.
  unfold values. rewrite list_elem_of_fmap. split.
  - intros ([i v] & -> & Hin). exists i. by apply elem_of_map_to_list.
  - intros [i Hi]. exists (i, u). split; [done|]. by apply elem_of_map_to_list.
Qed.

Lemma values_empty : values ∅ = [].
Proof. unfold values. by rewrite map_to_list_empty. Qed.

Lemma values_insert (db : gmap string Stored.t) i u :
  db !! i = None → values (<[i:=u]> db) ≡ₚ u :: values db.
Proof.
  intros Hi. unfold values. by rewrite (map_to_list_insert db i u Hi).
Qed.

Lemma values_delete (db : gmap string Stored.t) i u :
  db !! i = Some u → u :: values (delete i db) ≡ₚ values db.
Proof.
  intros Hi. unfold values.
  by rewrite <- (map_to_list_delete db i u Hi).
Qed.

Lemma name_exists_spec (db : gmap string Stored.t) (n : string) :
  name_exists db n = true ↔ has_name db n.
Proof.
  unfold name_exists, has_name. rewrite existsb_exists. split.
  - intros (u & Hin & Heq).
    apply list_elem_of_In, elem_of_values in Hin as [i Hi].
    apply String.eqb_eq in Heq. eauto.
  - intros (i & u & Hi & Hn). exists u. split.
    + apply list_elem_of_In, elem_of_values. eauto.
    + by apply String.eqb_eq.
Qed.

Lemma name_exists_false (db : gmap string Stored.t) (n : string) :
  name_exists db n = false ↔ ¬ has_name db n.
Proof.
  rewrite <- name_exists_spec. destruct (name_exists db n); naive_solver.
Qed.

Lemma has_name_empty n : ¬ has_name ∅ n.
Proof. intros (i & u & Hi & _). by rewrite lookup_empty in Hi. Qed.

Lemma unique_names_empty : unique_names ∅.
Proof. intros i j u v Hi. by rewrite lookup_empty in Hi. Qed.

(** Writing a record under any key, taken or not, keeps names unique as
    long as no record has its name yet. *)
Lemma unique_names_insert (db : gmap string Stored.t) i u :
  unique_names db → ¬ has_name db (Stored.name u) →
  unique_names (<[i:=u]> db).
Proof.
  intros Hu Hn j k v w Hj Hk Heq.
  destruct (decide (i = j)) as [Hij|Hij], (decide (i = k)) as [Hik|Hik];
    [congruence| | |].
  - subst j. rewrite lookup_insert_eq in Hj. rewrite lookup_insert_ne in Hk by done.
    destruct Hn. exists k, w. split; [done|]. congruence.
  - subst k. rewrite lookup_insert_eq in Hk. rewrite lookup_insert_ne in Hj by done.
    destruct Hn. exists j, v. split; [done|]. congruence.
  - rewrite lookup_insert_ne in Hj by done.
    rewrite lookup_insert_ne in Hk by done. by eapply Hu.
Qed.

Lemma unique_names_delete (db : gmap string Stored.t) i :
  unique_names db → unique_names (delete i db).
Proof.
  intros Hu j k v w Hj Hk Heq.
  apply lookup_delete_Some in Hj as [_ Hj].
  apply lookup_delete_Some in Hk as [_ Hk]. by eapply Hu.
Qed.

Lemma count_named_perm n (l l' : list Stored.t) :
  l ≡ₚ l' →
  length (filter (λ u, Stored.name u = n) l)
  = length (filter (λ u, Stored.name u = n) l').
Proof. intros Hp. by rewrite Hp. Qed.

Lemma count_named_absent n (db : gmap string Stored.t) :
  ¬ has_name db n → count_named n db = 0.
Proof.
  intros Hn. unfold count_named.
  assert (filter (λ u, Stored.name u = n) (values db) = []) as ->; [|done].
  apply elem_of_nil_inv. intros u [Hname Hin]%list_elem_of_filter.
  apply elem_of_values in Hin as [i Hi]. apply Hn. by exists i, u.
Qed.

Lemma count_named_unique n (db : gmap string Stored.t) :
  unique_names db → has_name db n → count_named n db = 1.
Proof.
  induction db as [|i x m Hi _ IH] using map_first_key_ind.
  - intros _ Hn. by destruct (has_name_empty n).
  - intros Hu Hn. unfold count_named.
    rewrite (count_named_perm n _ _ (values_insert m i x Hi)).
    rewrite filter_cons. destruct (decide (Stored.name x = n)) as [Hx|Hx].
    + cbn. f_equal. apply (count_named_absent n m).
      intros (j & v & Hj & Hv). assert (i = j) as ->.
      { apply (Hu i j x v); [by simplify_map_eq| |congruence].
        rewrite lookup_insert_ne; [done|]. intros ->. congruence. }
      congruence.
    + apply IH.
      * intros j k v w Hj Hk Heq. apply (Hu j k v w); [| |done].
        -- rewrite lookup_insert_ne; [done|]. intros ->. congruence.
        -- rewrite lookup_insert_ne; [done|]. intros ->. congruence.
      * destruct Hn as (j & v & Hj & Hv). exists j, v. split; [|done].
        destruct (decide (i = j)) as [->|Hij]; simplify_map_eq; done.
Qed.

(** ** The listing of the dictionary *)

Lemma omap_lookup_keys (db : gmap string Stored.t)
    (l : list (string * Stored.t)) :
  (∀ k v, (k, v) ∈ l → db !! k = Some v) →
  omap (λ k, db !! k) l.*1 = l.*2.
Proof.
  induction l as [|[k v] l IH]; intros H; [done|].
  cbn [fmap list_fmap omap list_omap fst snd].
  rewrite (H k v) by (apply elem_of_cons; by left). f_equal.
  apply IH. intros k' v' Hin. apply H, elem_of_cons. by right.
Qed.

Lemma remove_dups_NoDup_id (l : list string) : NoDup l → remove_dups l = l.
Proof.
  induction 1 as [|x l Hx Hl IH]; [done|].
  cbn [remove_dups]. destruct (decide_rel elem_of x l); [done|].
  by rewrite IH.
Qed.

Lemma filter_all {A} (P : A → Prop) `{∀ x, Decision (P x)} (l : list A) :
  (∀ x, x ∈ l → P x) → filter P l = l.
Proof.
  induction l as [|x l IH]; intros HP; [done|].
  rewrite filter_cons, decide_True by (apply HP, elem_of_cons; by left).
  f_equal. apply IH. intros y Hy. apply HP, elem_of_cons. by right.
Qed.

Lemma filter_none {A} (P : A → Prop) `{∀ x, Decision (P x)} (l : list A) :
  (∀ x, x ∈ l → ¬ P x) → filter P l = [].
Proof.
  induction l as [|x l IH]; intros HP; [done|].
  rewrite filter_cons, decide_False by (apply HP, elem_of_cons; by left).
  apply IH. intros y Hy. apply HP, elem_of_cons. by right.
Qed.

Lemma elem_of_keys (db : gmap string Stored.t) k :
  k ∈ (map_to_list db).*1 ↔ is_Some (db !! k).
Proof.
  rewrite list_elem_of_fmap. split.
  - intros ([k' v] & -> & Hin). exists v. by apply elem_of_map_to_list.
  - intros [v Hv]. exists (k, v). split; [done|].
    by apply elem_of_map_to_list.
Qed.

Lemma elem_of_dict_keys σ k :
  k ∈ dict_keys σ ↔ is_Some (users_db σ !! k).
Proof.
  unfold dict_keys.
  rewrite elem_of_app, elem_of_remove_dups, !list_elem_of_filter,
    elem_of_remove_dups, list_elem_of_filter, elem_of_keys.
  destruct (decide (k ∈ key_order σ)); tauto.
Qed.

Lemma dict_keys_NoDup σ : NoDup (dict_keys σ).
Proof.
  unfold dict_keys. apply NoDup_app. split; [apply NoDup_remove_dups|].
  split.
  - intros k Hk [Hnot _]%list_elem_of_filter. by apply Hnot.
  - apply NoDup_filter, NoDup_fst_map_to_list.
Qed.

(** The listing has the records of the dictionary, each once. *)
Lemma users_list_perm σ : users_list σ ≡ₚ values (users_db σ).
Proof.
  unfold users_list, values.
  assert (dict_keys σ ≡ₚ (map_to_list (users_db σ)).*1) as ->.
  { apply NoDup_Permutation;
      [apply dict_keys_NoDup|apply NoDup_fst_map_to_list|].
    intros k. by rewrite elem_of_dict_keys, elem_of_keys. }
  rewrite omap_lookup_keys; [done|].
  intros k v. apply elem_of_map_to_list.
Qed.

Lemma elem_of_users_list σ (r : Stored.t) :
  r ∈ users_list σ ↔ ∃ i, users_db σ !! i = Some r.
Proof. by rewrite users_list_perm, elem_of_values. Qed.

Lemma users_list_nil σ : users_list σ = [] ↔ users_db σ = ∅.
Proof.
  split.
  - intros Hnil. apply map_empty. intros i.
    destruct (users_db σ !! i) as [r|] eqn:Hi; [|done].
    assert (r ∈ users_list σ) as Hin by (apply elem_of_users_list; eauto).
    rewrite Hnil in Hin. by apply elem_of_nil in Hin.
  - intros Hempty. apply elem_of_nil_inv. intros r [i Hi]%elem_of_users_list.
    rewrite Hempty in Hi. by rewrite lookup_empty in Hi.
Qed.

(** In an ordered state the listing follows [key_order]. *)
Lemma dict_keys_ordered σ : ordered σ → dict_keys σ = key_order σ.
Proof.
  intros [Hnd Hkeys]. unfold dict_keys.
  rewrite (filter_all _ (key_order σ)) by (intros k; apply Hkeys).
  rewrite remove_dups_NoDup_id by done.
  rewrite filter_none; [by rewrite app_nil_r|].
  intros k Hk%elem_of_keys Hnot. by apply Hnot, Hkeys.
Qed.

Lemma ordered_initial : ordered initial_state.
Proof.
  split; [constructor|]. intros k. cbn. rewrite lookup_empty.
  split; [by intros ?%elem_of_nil|by intros [? ?]].
Qed.

Lemma ordered_store_user (u : User.t) σ :
  ordered σ → ordered (store_user u σ).
Proof.
  intros [Hnd Hkeys]. unfold ordered, store_user.
  cbn [users_db key_order].
  destruct (decide (is_Some (users_db σ !! User.id u))) as [Hin|Hnew].
  - split; [done|]. intros k. rewrite Hkeys.
    destruct (decide (User.id u = k)) as [<-|Hne].
    + rewrite lookup_insert_eq. split; intros _; [by eexists|done].
    + by rewrite lookup_insert_ne.
  - split.
    + apply NoDup_app. split; [done|]. split; [|apply NoDup_singleton].
      intros k Hk ->%list_elem_of_singleton. by apply Hnew, Hkeys.
    + intros k. rewrite elem_of_app, list_elem_of_singleton, Hkeys.
      destruct (decide (User.id u = k)) as [<-|Hne].
      * rewrite lookup_insert_eq. split; [by eexists|by right].
      * rewrite lookup_insert_ne by done. split; [by intros [|]|tauto].
Qed.

Lemma ordered_calls σ n :
  ordered σ →
  ordered {| users_db := users_db σ; key_order := key_order σ;
             uuid_calls := n |}.
Proof. done. Qed.

Lemma ordered_delete σ i :
  ordered σ →
  ordered {| users_db := delete i (users_db σ);
             key_order := filter (λ k, k ≠ i) (key_order σ);
             uuid_calls := uuid_calls σ |}.
Proof.
  intros [Hnd Hkeys]. split; cbn [users_db key_order].
  - by apply NoDup_filter.
  - intros k. rewrite list_elem_of_filter, Hkeys.
    destruct (decide (i = k)) as [<-|Hne].
    + rewrite lookup_delete_eq. split; [by intros []|by intros [? ?]].
    + rewrite lookup_delete_ne by done.
      split; [by intros [_ ?]|intros ?; split; [congruence|done]].
Qed.

(** Simplification unfolds [omap] on lists to its fixpoint; this folds it
    back. *)
Ltac refold_omap :=
  repeat match goal with
         | |- context [list_omap ?A ?B ?f ?l] =>
             change (list_omap A B f l) with (omap f l)
         | H : context [list_omap ?A ?B ?f ?l] |- _ =>
             change (list_omap A B f l) with (omap f l) in H
         end.

(** ** The import loop follows the classification *)

Section ImportTrace.
Context `{RT : Runtime}.

Lemma get_error_label row : py_str (get row "Name" (VStr "N/A")) = error_label row.
Proof. unfold get, error_label. by destruct (getitem row "Name"). Qed.

(** One pass through the loop body takes one step and counts its outcome. *)
Lemma loop_body_step σ c row :
  ∃ o σ', row_step σ row o σ' ∧ loop_body (σ, c) row = (σ', count_outcome c o).
Proof.
  unfold loop_body. destruct (row_UserCreate row) as [d|] eqn:Hrow.
  - destruct (name_exists (users_db σ) (UserCreate.name d)) eqn:Hex.
    + apply name_exists_spec in Hex.
      exists (SkippedDuplicate (UserCreate.name d)), σ.
      split; [by eapply row_duplicate|done].
    + apply name_exists_false in Hex.
      eexists (Added _), _. split; [by eapply row_added|done].
  - exists (SkippedError (error_label row)), σ.
    split; [by apply row_error|]. by rewrite get_error_label.
Qed.

Lemma import_rows_trace rows : ∀ σ c,
  ∃ os σ', import_trace σ rows os σ'
           ∧ import_rows rows (σ, c) = (σ', fold_left count_outcome os c).
Proof.
  induction rows as [|row rows IH]; intros σ c.
  - exists [], σ. split; [constructor|done].
  - destruct (loop_body_step σ c row) as (o & σ1 & Hstep & Hbody).
    destruct (IH σ1 (count_outcome c o)) as (os & σ2 & Htr & Hrows).
    exists (o :: os), σ2. split; [by econstructor|].
    unfold import_rows in *. cbn [fold_left]. by rewrite Hbody, Hrows.
Qed.

Lemma import_trace_length σ rows os σ' :
  import_trace σ rows os σ' → length os = length rows.
Proof. induction 1; cbn; congruence. Qed.

Lemma count_outcomes_names os : ∀ c,
  skipped_names (fold_left count_outcome os c)
  = skipped_names c ++ omap skipped_name os.
Proof.
  induction os as [|o os IH]; intros c; cbn [fold_left omap].
  - by rewrite app_nil_r.
  - rewrite IH. destruct o; cbn; [done| |]; by rewrite <- app_assoc.
Qed.

Lemma count_outcomes_skipped os : ∀ c,
  skipped_count (fold_left count_outcome os c)
  = skipped_count c + length (omap skipped_name os).
Proof.
  induction os as [|o os IH]; intros c; cbn [fold_left omap].
  - cbn. lia.
  - rewrite IH. destruct o; cbn; refold_omap; lia.
Qed.

Lemma count_outcomes_added os : ∀ c,
  added_count (fold_left count_outcome os c)
  = added_count c + length (filter is_added os).
Proof.
  induction os as [|o os IH]; intros c; cbn [fold_left].
  - cbn. lia.
  - rewrite IH, filter_cons.
    destruct o; cbn [is_added count_outcome added_count];
      [rewrite decide_True by done|rewrite decide_False by (cbn; tauto)..];
      cbn [length]; lia.
Qed.

Lemma outcomes_partition os :
  length (filter is_added os) + length (omap skipped_name os) = length os.
Proof.
  induction os as [|o os IH]; [done|].
  rewrite filter_cons.
  destruct o; cbn [is_added omap list_omap skipped_name]; refold_omap;
    [rewrite decide_True by done|rewrite decide_False by (cbn; tauto)..];
    cbn [length]; lia.
Qed.

Lemma row_step_unique_names σ row o σ' :
  row_step σ row o σ' → unique_names (users_db σ) → unique_names (users_db σ').
Proof.
  destruct 1 as [| |σ row d Hrow Hn]; [done..|].
  intros Hu. cbn. by apply unique_names_insert.
Qed.

Lemma import_trace_unique_names σ rows os σ' :
  import_trace σ rows os σ' →
  unique_names (users_db σ) → unique_names (users_db σ').
Proof. induction 1; eauto using row_step_unique_names. Qed.

End ImportTrace.

(** ** Properties of create, delete and import *)

Lemma has_required_columns_spec df :
  has_required_columns df = true ↔ "Name" ∈ columns df ∧ "Age" ∈ columns df.
Proof.
  assert (∀ c, existsb (String.eqb c) (columns df) = true ↔ c ∈ columns df)
    as Hc.
  { intros c. rewrite existsb_exists, list_elem_of_In. split.
    - by intros (x & Hin & ->%String.eqb_eq).
    - intros Hin. exists c. by rewrite String.eqb_refl. }
  unfold has_required_columns. cbn [forallb].
  rewrite andb_true_r, andb_true_iff, !Hc. done.
Qed.

Section Properties.
Context `{RT : Runtime}.

Lemma row_UserCreate_name row d :
  row_UserCreate row = Some d →
  getitem row "Name" = Some (VStr (UserCreate.name d)).
Proof.
  unfold row_UserCreate. intros H.
  destruct (getitem row "Name") as [nm|]; [|done]. cbn in H.
  destruct (getitem row "Age") as [ag|]; [|done]. cbn in H.
  destruct (py_int ag) as [a|]; [|done]. cbn in H.
  destruct nm; by simplify_eq.
Qed.

Lemma row_UserCreate_text row n v a :
  getitem row "Name" = Some (VStr n) →
  getitem row "Age" = Some v →
  py_int v = Some a →
  row_UserCreate row = Some {| UserCreate.name := n; UserCreate.age := a |}.
Proof.
  unfold row_UserCreate. intros -> ->. cbn. by intros ->.
Qed.

(** An accepted upload runs the rows of the table and reports their
    outcomes. *)
Lemma upload_accepted file df σ :
  content_type file = "text/csv" →
  read_csv file = Some df →
  has_required_columns df = true →
  ∃ os σ',
    import_trace σ (iterrows df) os σ'
    ∧ upload_users_csv file σ
      = (inr {| Report.message := "Processed CSV file.";
                Report.added_users := length (filter is_added os);
                Report.skipped_users := length (omap skipped_name os);
                Report.skipped_names := omap skipped_name os |}, σ').
Proof.
  intros Hct Hcsv Hcols.
  pose (c0 := {| added_count := 0; skipped_count := 0; skipped_names := [] |}).
  destruct (import_rows_trace (iterrows df) σ c0) as (os & σ' & Htr & Hrows).
  exists os, σ'. split; [done|].
  apply String.eqb_eq in Hct.
  unfold upload_users_csv. rewrite Hct, Hcsv, Hcols. cbn [negb].
  fold c0. rewrite Hrows.
  by rewrite count_outcomes_added, count_outcomes_skipped,
    count_outcomes_names.
Qed.

(** Whatever the upload answers, its effect on the state is that of a run
    over some rows: none when it is rejected, those of the table
    otherwise. *)
Lemma upload_users_csv_trace file σ :
  ∃ rows os,
    import_trace σ rows os (upload_users_csv file σ).2
    ∧ (rows = [] ∨ ∃ df, read_csv file = Some df ∧ rows = iterrows df).
Proof.
  destruct (String.eqb (content_type file) "text/csv") eqn:Hct;
    [|exists [], []; unfold upload_users_csv; rewrite Hct;
      split; [constructor|by left]].
  destruct (read_csv file) as [df|] eqn:Hcsv;
    [|exists [], []; unfold upload_users_csv; rewrite Hct, Hcsv;
      split; [constructor|by left]].
  destruct (has_required_columns df) eqn:Hcols;
    [|exists [], []; unfold upload_users_csv; rewrite Hct, Hcsv, Hcols;
      split; [constructor|by left]].
  apply String.eqb_eq in Hct.
  destruct (upload_accepted file df σ Hct Hcsv Hcols) as (os & σ' & Htr & ->).
  exists (iterrows df), os. split; [done|]. right. eauto.
Qed.

Lemma create_user_unique_names user_in σ :
  unique_names (users_db σ) →
  unique_names (users_db (create_user user_in σ).2).
Proof.
  intros Hu. unfold create_user. cbn.
  destruct (name_exists (users_db σ) (UserCreate.name user_in)) eqn:Hex;
    [done|].
  apply name_exists_false in Hex. cbn. by apply unique_names_insert.
Qed.

Lemma delete_user_unique_names user_id σ :
  unique_names (users_db σ) →
  unique_names (users_db (delete_user user_id σ).2).
Proof.
  intros Hu. unfold delete_user.
  destruct (users_db σ !! user_id); [|done]. by apply unique_names_delete.
Qed.

Lemma serve_unique_names σ r :
  unique_names (users_db σ) → unique_names (users_db (serve σ r)).
Proof.
  intros Hu. destruct r as [user_in| |user_id|file|]; cbn [serve]; try done.
  - by apply create_user_unique_names.
  - by apply delete_user_unique_names.
  - destruct (upload_users_csv_trace file σ) as (rows & os & Htr & _).
    by eapply import_trace_unique_names.
Qed.

Lemma serve_all_unique_names rs : ∀ σ,
  unique_names (users_db σ) → unique_names (users_db (serve_all rs σ)).
Proof.
  induction rs as [|r rs IH]; intros σ Hu; [done|].
  apply IH. by apply serve_unique_names.
Qed.

Lemma names_nonempty_insert (db : gmap string Stored.t) i u :
  names_nonempty db → Stored.name u ≠ "" → names_nonempty (<[i:=u]> db).
Proof.
  intros Hdb Hu j v Hj. destruct (decide (i = j)) as [->|Hij].
  - rewrite lookup_insert_eq in Hj. by simplify_eq.
  - rewrite lookup_insert_ne in Hj by done. by eapply Hdb.
Qed.

Lemma row_step_names_nonempty σ row o σ' :
  row_step σ row o σ' → row_named row →
  names_nonempty (users_db σ) → names_nonempty (users_db σ').
Proof.
  destruct 1 as [| |σ row d Hrow Hn]; [done..|].
  intros Hnamed Hdb. cbn. apply names_nonempty_insert; [done|]. cbn.
  intros Hempty. apply Hnamed.
  by rewrite (row_UserCreate_name row d Hrow), Hempty.
Qed.

Lemma import_trace_names_nonempty σ rows os σ' :
  import_trace σ rows os σ' → Forall row_named rows →
  names_nonempty (users_db σ) → names_nonempty (users_db σ').
Proof.
  induction 1 as [|σ row o σ1 rows os σ2 Hstep Htr IH]; [done|].
  intros [Hrow Hrows]%Forall_cons Hdb.
  eauto using row_step_names_nonempty.
Qed.

Lemma serve_names_nonempty σ r :
  request_named r →
  names_nonempty (users_db σ) → names_nonempty (users_db (serve σ r)).
Proof.
  intros Hr Hdb.
  destruct r as [user_in| |user_id|file|]; cbn [serve]; try done.
  - unfold create_user. cbn.
    destruct (name_exists (users_db σ) (UserCreate.name user_in)); [done|].
    cbn. by apply names_nonempty_insert.
  - unfold delete_user. destruct (users_db σ !! user_id); [|done].
    cbn. intros j v [_ Hj]%lookup_delete_Some. by eapply Hdb.
  - destruct (upload_users_csv_trace file σ)
      as (rows & os & Htr & [->|(df & Hcsv & ->)]);
      eapply import_trace_names_nonempty; eauto.
Qed.

Lemma serve_all_names_nonempty rs : ∀ σ,
  Forall request_named rs →
  names_nonempty (users_db σ) →
  names_nonempty (users_db (serve_all rs σ)).
Proof.
  induction rs as [|r rs IH]; intros σ Hrs Hdb; [done|].
  apply Forall_cons in Hrs as [Hr Hrs].
  apply IH; [done|]. by apply serve_names_nonempty.
Qed.

(** In a table every row has a cell for every column, so after the header
    check a row always has a [Name] cell and the placeholder is not used. *)
Lemma getitem_zip_is_Some (cols : list string) (cells : list pyval) label :
  label ∈ cols → (length cols <= length cells)%nat →
  is_Some (getitem (zip cols cells) label).
Proof.
  revert cells. induction cols as [|c cols IH]; intros cells Hin Hlen.
  - by apply elem_of_nil in Hin.
  - destruct cells as [|v cells]; [cbn in Hlen; lia|].
    cbn [zip zip_with getitem].
    destruct (String.eqb c label) eqn:Hc; [by eexists|].
    apply IH; [|cbn in Hlen; lia].
    apply elem_of_cons in Hin as [->|Hin]; [|done].
    by rewrite String.eqb_refl in Hc.
Qed.



Lemma error_label_of_cell df cells :
  "Name" ∈ columns df → (length (columns df) <= length cells)%nat →
  ∃ v, getitem (zip (columns df) cells) "Name" = Some v
       ∧ error_label (zip (columns df) cells) = py_str v.
Proof.
  intros Hin Hlen.
  destruct (getitem_zip_is_Some (columns df) cells "Name" Hin Hlen) as [v Hv].
  exists v. split; [done|]. unfold error_label. by rewrite Hv.
Qed.


(** *** Importing a name the store already has

    With fresh identifiers an upload never overwrites a record, and a row
    whose name the store had before the upload is skipped wherever it
    stands in the table. *)

Lemma row_step_extends db0 n0 σ row o σ' :
  fresh_from db0 n0 →
  row_step σ row o σ' → extends db0 n0 σ → extends db0 n0 σ'.
Proof.
  intros Hfresh Hstep [Hsub Hcalls].
  destruct Hstep as [| |σ row d Hrow Hn]; [done..|].
  split; cbn; [|lia]. apply insert_subseteq_r; [|done]. by apply Hfresh.
Qed.

Lemma import_trace_extends db0 n0 σ rows os σ' :
  fresh_from db0 n0 →
  import_trace σ rows os σ' → extends db0 n0 σ → extends db0 n0 σ'.
Proof. intros Hfresh. induction 1; eauto using row_step_extends. Qed.

Lemma import_trace_lookup_inv (P : State → Prop) σ rows os σ' i row :
  (∀ σ1 r o σ2, row_step σ1 r o σ2 → P σ1 → P σ2) →
  import_trace σ rows os σ' → P σ → rows !! i = Some row →
  ∃ σi o σi', os !! i = Some o ∧ row_step σi row o σi' ∧ P σi.
Proof.
  intros HP Htr. revert i.
  induction Htr as [|σ r o σ1 rows os σ2 Hstep Htr IH]; intros i Hσ Hi;
    [done|].
  destruct i as [|i]; cbn in Hi.
  - simplify_eq. by exists σ, o, σ1.
  - apply IH; [|done]. by eapply HP.
Qed.

Lemma has_name_weaken (db db' : gmap string Stored.t) n :
  db ⊆ db' → has_name db n → has_name db' n.
Proof.
  intros Hsub (i & u & Hi & Hu). exists i, u. split; [|done].
  by eapply lookup_weaken.
Qed.

(** Importing a name twice, once before and once in the table: the row is
    skipped as a duplicate, and one record has the name afterwards. *)
Corollary upload_known_name_skipped file df σ i row n v a :
  content_type file = "text/csv" →
  read_csv file = Some df →
  "Name" ∈ columns df → "Age" ∈ columns df →
  unique_names (users_db σ) →
  fresh_from (users_db σ) (uuid_calls σ) →
  has_name (users_db σ) n →
  iterrows df !! i = Some row →
  getitem row "Name" = Some (VStr n) →
  getitem row "Age" = Some v →
  py_int v = Some a →
  ∃ report os σ',
    upload_users_csv file σ = (inr report, σ')
    ∧ import_trace σ (iterrows df) os σ'
    ∧ os !! i = Some (SkippedDuplicate n)
    ∧ n ∈ Report.skipped_names report
    ∧ users_db σ ⊆ users_db σ'
    ∧ count_named n (users_db σ') = 1.
Proof.
  intros Hct Hcsv HN HA Hu Hfresh Hn Hi Hname Hage Hint.
  assert (has_required_columns df = true) as Hcols
    by by apply has_required_columns_spec.
  destruct (upload_accepted file df σ Hct Hcsv Hcols) as (os & σ' & Htr & Hup).
  assert (extends (users_db σ) (uuid_calls σ) σ) as Hext0 by by split.
  destruct (import_trace_lookup_inv (extends (users_db σ) (uuid_calls σ))
              _ _ _ _ i row
              (λ σ1 r o σ2 H, row_step_extends _ _ σ1 r o σ2 Hfresh H)
              Htr Hext0 Hi)
    as (σi & o & σi' & Ho & Hstep & [Hsub _]).
  pose proof (row_UserCreate_text row n v a Hname Hage Hint) as Hrow.
  assert (o = SkippedDuplicate n) as ->.
  { inversion Hstep as [? ? Hr| ? ? d Hr Hd| ? ? d Hr Hd]; subst.
    - congruence.
    - rewrite Hrow in Hr. by simplify_eq.
    - rewrite Hrow in Hr. simplify_eq. destruct Hd. cbn.
      by eapply has_name_weaken. }
  destruct (import_trace_extends _ _ _ _ _ _ Hfresh Htr Hext0) as [Hsub' _].
  eexists _, os, σ'. split; [exact Hup|]. cbn.
  repeat split; [done..| |done|].
  - apply list_elem_of_omap. exists (SkippedDuplicate n). split; [|done].
    by eapply list_elem_of_lookup_2.
  - apply count_named_unique.
    + by eapply import_trace_unique_names.
    + by eapply has_name_weaken.
Qed.

End Properties.

(** ** The handlers keep the state ordered *)

Section OrderedStates.
Context `{RT : Runtime}.

Lemma row_step_ordered σ row o σ' :
  row_step σ row o σ' → ordered σ → ordered σ'.
Proof.
  destruct 1 as [| |σ row d Hrow Hn]; [done..|]. intros Hσ.
  by apply ordered_store_user, ordered_calls.
Qed.

Lemma import_trace_ordered σ rows os σ' :
  import_trace σ rows os σ' → ordered σ → ordered σ'.
Proof. induction 1; eauto using row_step_ordered. Qed.

Lemma serve_ordered σ r : ordered σ → ordered (serve σ r).
Proof.
  intros Hσ. destruct r as [user_in| |user_id|file|]; cbn [serve]; try done.
  - unfold create_user. cbn [new_User].
    destruct (name_exists _ _); cbn [snd].
    + by apply ordered_calls.
    + by apply ordered_store_user, ordered_calls.
  - unfold delete_user. destruct (users_db σ !! user_id); [|done].
    by apply ordered_delete.
  - destruct (upload_users_csv_trace file σ) as (rows & os & Htr & _).
    by eapply import_trace_ordered.
Qed.

Lemma serve_all_ordered rs : ordered (serve_all rs initial_state).
Proof.
  pose proof ordered_initial as H0. revert H0. generalize initial_state.
  induction rs as [|r rs IH]; intros σ Hσ; [done|].
  apply IH. by apply serve_ordered.
Qed.

End OrderedStates.

(** ** Grouping *)

Lemma groupby_lookup (rows : list (option string * float64)) (k : string) :
  groupby rows !! k
  = match ages_of k rows with [] => None | ages => Some ages end.
Proof.
  induction rows as [|[g a] rows IH]; [done|].
  unfold ages_of in *. cbn [groupby foldr omap list_omap fst snd].
  refold_omap. fold (groupby rows).
  destruct g as [g|]; [|by rewrite decide_False].
  destruct (decide (g = k)) as [->|Hgk].
  - rewrite decide_True by done. rewrite lookup_insert_eq, IH.
    by destruct (omap _ rows).
  - rewrite decide_False by congruence. by rewrite lookup_insert_ne.
Qed.

Section Aggregation.
Context `{RT : Runtime}.

Lemma ages_of_dropna k users_list :
  ages_of k (dropna users_list) = included_ages k users_list.
Proof.
  unfold ages_of, dropna, included_ages.
  induction users_list as [|u l IH]; [done|].
  cbn [omap list_omap]. refold_omap.
  destruct (to_numeric (Stored.age u)) as [a|]; cbn.
  - refold_omap. rewrite IH.
    by destruct (decide (group_of (Stored.name u) = Some k)).
  - refold_omap. rewrite IH.
    by destruct (decide (group_of (Stored.name u) = Some k)).
Qed.

(** What the aggregation reports for a key. *)
Lemma average_ages_lookup users_list k :
  average_ages users_list !! k
  = match included_ages k users_list with
    | [] => None
    | ages => Some (round2 (mean ages))
    end.
Proof.
  unfold average_ages.
  rewrite lookup_fmap, groupby_lookup, ages_of_dropna.
  by destruct (included_ages k users_list).
Qed.

(** A record whose age is not numeric leaves no trace in the result. *)
Lemma average_ages_skip u users_list :
  to_numeric (Stored.age u) = None →
  average_ages (u :: users_list) = average_ages users_list.
Proof.
  intros Hu. unfold average_ages, dropna. cbn [omap list_omap].
  by rewrite Hu.
Qed.

Lemma dropna_numeric users_list :
  dropna (filter (λ u, is_Some (to_numeric (Stored.age u))) users_list)
  = dropna users_list.
Proof.
  unfold dropna. induction users_list as [|u l IH]; [done|].
  rewrite filter_cons. cbn [omap list_omap]. refold_omap.
  destruct (to_numeric (Stored.age u)) as [a|] eqn:Ha.
  - rewrite decide_True by done. cbn [omap list_omap]. refold_omap.
    rewrite Ha. cbn. refold_omap. by rewrite IH.
  - rewrite decide_False by (by intros [? ?]). done.
Qed.

Lemma included_ages_nil k users_list :
  (∀ u, u ∈ users_list → group_of (Stored.name u) = Some k →
        to_numeric (Stored.age u) = None) →
  included_ages k users_list = [].
Proof.
  intros H. apply elem_of_nil_inv. intros a Ha.
  apply list_elem_of_omap in Ha as (u & Hu & Hf).
  destruct (decide (group_of (Stored.name u) = Some k)) as [Hk|]; [|done].
  by rewrite (H u Hu Hk) in Hf.
Qed.

Lemma get_average_age_nonempty σ :
  users_db σ ≠ ∅ →
  get_average_age_by_group σ = Averages (average_ages (users_list σ)).
Proof.
  intros Hne. unfold get_average_age_by_group. by rewrite decide_False.
Qed.

Lemma get_average_age_inv σ m :
  get_average_age_by_group σ = Averages m →
  users_db σ ≠ ∅ ∧ m = average_ages (users_list σ).
Proof.
  unfold get_average_age_by_group.
  destruct (decide (users_db σ = ∅)); [done|]. by intros [= <-].
Qed.

Lemma elem_of_included_ages k users_list a :
  a ∈ included_ages k users_list
  ↔ ∃ u, u ∈ users_list
         ∧ group_of (Stored.name u) = Some k
         ∧ to_numeric (Stored.age u) = Some a.
Proof.
  unfold included_ages. rewrite list_elem_of_omap. split.
  - intros (u & Hu & Hf). exists u.
    by destruct (decide (group_of (Stored.name u) = Some k)).
  - intros (u & Hu & Hk & Ha). exists u. split; [done|].
    by rewrite decide_True.
Qed.

(** The groups of the result are those of the records with a numeric
    age. *)
Lemma average_ages_is_Some σ (k : string) :
  is_Some (average_ages (users_list σ) !! k) ↔ contributes k (users_db σ).
Proof.
  rewrite average_ages_lookup. split.
  - intros Hsome.
    destruct (included_ages k (users_list σ)) as [|a ages] eqn:Hl;
      [by destruct Hsome|].
    assert (a ∈ included_ages k (users_list σ)) as Ha
      by (rewrite Hl; apply elem_of_cons; by left).
    apply elem_of_included_ages in Ha
      as (u & [i Hi]%elem_of_users_list & Hk & Hu).
    by exists i, u, a.
  - intros (i & r & a & Hi & Hk & Ha).
    assert (a ∈ included_ages k (users_list σ)) as Hin.
    { apply elem_of_included_ages. exists r. split; [|done].
      apply elem_of_users_list. by exists i. }
    destruct (included_ages k (users_list σ)); [|done].
    by apply elem_of_nil in Hin.
Qed.

(** Taking a record whose age is not numeric out of the dictionary leaves
    the rows that [dropna] keeps as they are, in the same order. *)
Lemma dropna_delete (db : gmap string Stored.t) i u (keys : list string) :
  db !! i = Some u →
  to_numeric (Stored.age u) = None →
  dropna (omap (λ k, delete i db !! k) (filter (λ k, k ≠ i) keys))
  = dropna (omap (λ k, db !! k) keys).
Proof.
  intros Hi Hu. unfold dropna.
  induction keys as [|k keys IH]; [done|].
  rewrite filter_cons. destruct (decide (k ≠ i)) as [Hne|Heq].
  - cbn [omap list_omap]. refold_omap.
    rewrite lookup_delete_ne by done.
    destruct (db !! k) as [v|]; [|done].
    cbn [omap list_omap]. refold_omap. by rewrite IH.
  - assert (k = i) as -> by (by destruct (decide (k = i)); [|destruct Heq]).
    cbn [omap list_omap]. refold_omap. rewrite Hi.
    cbn [omap list_omap]. refold_omap. rewrite Hu. cbn. refold_omap.
    done.
Qed.

(** The result depends on the names and the ages of the records, in their
    order, and on nothing else. *)
Lemma dropna_names_ages (l l' : list Stored.t) :
  (λ r, (Stored.name r, Stored.age r)) <$> l
  = (λ r, (Stored.name r, Stored.age r)) <$> l' →
  dropna l = dropna l'.
Proof.
  revert l'. unfold dropna.
  induction l as [|u l IH]; intros [|u' l'] Heq; try done.
  cbn [fmap list_fmap] in Heq. injection Heq as Hn Ha Hl.
  cbn [omap list_omap]. refold_omap. rewrite Hn, Ha.
  by rewrite (IH l' Hl).
Qed.

End Aggregation.

(** ** The properties of the specification *)

Section Claims.
Context `{RT : Runtime}.

(** C1. Name uniqueness is an invariant: from the empty store, after any
    sequence of requests (create, list, delete, CSV upload, average), no
    two records of the store have the same name. *)
Theorem names_stay_unique (rs : list Request) :
  unique_names (users_db (serve_all rs initial_state)).
Proof. apply serve_all_unique_names, unique_names_empty. Qed.

(** C2. A create whose name is that of an existing record fails with
    [DuplicateName], whatever the age, and leaves the store as it was. *)
Theorem create_duplicate_rejected (n : string) (a : Z) (σ : State) :
  has_name (users_db σ) n →
  ∃ σ',
    create_user {| UserCreate.name := n; UserCreate.age := a |} σ
    = (inl (DuplicateName n), σ')
    ∧ users_db σ' = users_db σ.
Proof.
  intros Hn. apply name_exists_spec in Hn.
  unfold create_user. cbn. rewrite Hn. by eexists.
Qed.

(** C3. A CSV upload whose table lacks the column [Name] or the column
    [Age] fails with [SchemaMismatch] and changes nothing: no row is
    processed. *)
Theorem upload_missing_column_rejected file df σ :
  content_type file = "text/csv" →
  read_csv file = Some df →
  "Name" ∉ columns df ∨ "Age" ∉ columns df →
  upload_users_csv file σ = (inl SchemaMismatch, σ).
Proof.
  intros Hct Hcsv Hmiss. apply String.eqb_eq in Hct.
  assert (has_required_columns df = false) as Hcols.
  { destruct (has_required_columns df) eqn:H; [|done].
    apply has_required_columns_spec in H. tauto. }
  unfold upload_users_csv. by rewrite Hct, Hcsv, Hcols.
Qed.

(** C4. When the store, whose names are unique, already has a record
    named [n], a row carrying the name [n] and an age that [int] accepts
    is counted as skipped under the name [n]; no record is created, and
    exactly one record of the store has the name [n] afterwards. *)
Theorem known_name_row_skipped σ c row n v a :
  unique_names (users_db σ) →
  has_name (users_db σ) n →
  getitem row "Name" = Some (VStr n) →
  getitem row "Age" = Some v →
  py_int v = Some a →
  ∃ σ' c',
    loop_body (σ, c) row = (σ', c')
    ∧ σ' = σ
    ∧ added_count c' = added_count c
    ∧ skipped_count c' = skipped_count c + 1
    ∧ skipped_names c' = skipped_names c ++ [n]
    ∧ count_named n (users_db σ') = 1.
Proof.
  intros Hu Hn Hname Hage Hint.
  unfold loop_body.
  rewrite (row_UserCreate_text row n v a Hname Hage Hint). cbn.
  pose proof Hn as Hex. apply name_exists_spec in Hex. rewrite Hex.
  eexists _, _. split; [done|]. cbn.
  repeat split. by apply count_named_unique.
Qed.


(** C10. An accepted upload classifies every data row exactly once: the
    added and the skipped count add up to the number of data rows, and
    there are as many skipped names as the skipped count says. *)
Theorem every_row_counted_once file df σ :
  content_type file = "text/csv" →
  read_csv file = Some df →
  "Name" ∈ columns df → "Age" ∈ columns df →
  ∃ report σ',
    upload_users_csv file σ = (inr report, σ')
    ∧ Report.added_users report + Report.skipped_users report
      = length (data df)
    ∧ length (Report.skipped_names report) = Report.skipped_users report.
Proof.
  intros Hct Hcsv HN HA.
  assert (has_required_columns df = true) as Hcols
    by by apply has_required_columns_spec.
  destruct (upload_accepted file df σ Hct Hcsv Hcols) as (os & σ' & Htr & Hup).
  eexists _, σ'. split; [exact Hup|]. cbn. split; [|done].
  rewrite outcomes_partition, (import_trace_length _ _ _ _ Htr).
  unfold iterrows. apply length_map.
Qed.

End Claims.

Section AggregationClaims.
Context `{RT : Runtime}.


(** C6. On a non-empty store the aggregation answers with a dictionary,
    also when some ages are not numeric.  A record whose age is not
    numeric takes no part in it: the dictionary is the one computed from
    the numeric records alone, and the same as after deleting that record.
    A key under which no record with a numeric age is filed is absent from
    the dictionary. *)
Theorem non_numeric_ages_excluded (σ : State) :
  ordered σ →
  users_db σ ≠ ∅ →
  ∃ m,
    get_average_age_by_group σ = Averages m
    ∧ m = average_ages
            (filter (λ u, is_Some (to_numeric (Stored.age u)))
                    (users_list σ))
    ∧ (∀ i u, users_db σ !! i = Some u →
              to_numeric (Stored.age u) = None →
              average_ages (users_list (delete_user i σ).2) = m)
    ∧ (∀ k, (∀ i u, users_db σ !! i = Some u →
                    group_of (Stored.name u) = Some k →
                    to_numeric (Stored.age u) = None) →
            m !! k = None).
Proof.
  intros Hσ Hne. eexists. split; [by apply get_average_age_nonempty|].
  split; [|split].
  - unfold average_ages. by rewrite dropna_numeric.
  - intros i u Hi Hu. unfold delete_user. rewrite Hi. cbn [snd].
    unfold average_ages, users_list.
    rewrite (dict_keys_ordered _ (ordered_delete σ i Hσ)),
      (dict_keys_ordered σ Hσ).
    cbn [users_db key_order]. by rewrite (dropna_delete _ i u).
  - intros k Hk. rewrite average_ages_lookup, included_ages_nil; [done|].
    intros u [i Hi]%elem_of_users_list. by apply (Hk i).
Qed.


(** C8. On the empty store the average-age request answers with the
    message, not with a dictionary, while on every non-empty store it
    answers with a dictionary: the two cases cannot be confused. *)
Theorem empty_store_reports_no_users (σ : State) :
  users_db σ = ∅ →
  get_average_age_by_group σ
  = NoUsers "No users available to calculate average age."
  ∧ (∀ m, get_average_age_by_group σ ≠ Averages m)
  ∧ (∀ σ', users_db σ' ≠ ∅ →
           ∃ m, get_average_age_by_group σ' = Averages m).
Proof.
  intros Hempty.
  assert (get_average_age_by_group σ
          = NoUsers "No users available to calculate average age.") as Hres.
  { unfold get_average_age_by_group. by rewrite decide_True. }
  split; [done|]. split.
  - intros m. by rewrite Hres.
  - intros σ' Hne. eexists. by apply get_average_age_nonempty.
Qed.

End AggregationClaims.

Section NameConstraint.
Context `{RT : Runtime}.

(** C9, as the handlers have it.  Create does not look at whether the
    name is empty.  As long as every create request and every imported
    row carries a non-empty name, every record of the store has a
    non-empty name; but a create request with the empty name is then
    accepted, and its record is stored. *)
Theorem create_accepts_empty_name (rs : list Request) (a : Z) :
  Forall request_named rs →
  names_nonempty (users_db (serve_all rs initial_state))
  ∧ ∃ u σ',
      create_user {| UserCreate.name := ""; UserCreate.age := a |}
                  (serve_all rs initial_state)
      = (inr u, σ')
      ∧ users_db σ' !! User.id u = Some (stored (User.id u) "" a).
Proof.
  intros Hrs.
  assert (names_nonempty (users_db (serve_all rs initial_state))) as Hdb.
  { apply serve_all_names_nonempty; [done|].
    intros i u Hi. cbn in Hi. by rewrite lookup_empty in Hi. }
  split; [done|].
  assert (name_exists (users_db (serve_all rs initial_state)) "" = false)
    as Hex.
  { apply name_exists_false. intros (i & u & Hi & Hu). by apply (Hdb i u). }
  unfold create_user. cbn. rewrite Hex. eexists _, _. split; [done|].
  cbn. by rewrite lookup_insert_eq.
Qed.

End NameConstraint.

(** ** The handlers on the inputs of the test suite *)

Example test_upload_csv :
  (@upload_users_csv example_runtime (csv_file frank_csv) initial_state).1
  = inr {| Report.message := "Processed CSV file.";
           Report.added_users := 2;
           Report.skipped_users := 0;
           Report.skipped_names := [] |}.
Proof. vm_compute. reflexivity. Qed.

Example test_upload_csv_with_duplicates_and_errors :
  (@upload_users_csv example_runtime (csv_file heidi_csv) heidi_state).1
  = inr {| Report.message := "Processed CSV file.";
           Report.added_users := 1;
           Report.skipped_users := 2;
           Report.skipped_names := ["Heidi"; "Judy"] |}.
Proof. vm_compute. reflexivity. Qed.

(** Numbers for names in a table without text: the rows come as floats,
    and the names are reported as floats. *)
Example upload_numeric_names :
  (@upload_users_csv example_runtime (csv_file numbers_csv)
     initial_state).1
  = inr {| Report.message := "Processed CSV file.";
           Report.added_users := 0;
           Report.skipped_users := 2;
           Report.skipped_names := ["123.0"; "456.0"] |}.
Proof. vm_compute. reflexivity. Qed.

(** The cast to floats rounds: the number 2^53 + 1 in the place of a name
    is reported as the float 2^53. *)
Example upload_huge_numeric_name :
  (@upload_users_csv example_runtime
     (csv_file {| columns := ["Name"; "Age"];
                  data := [[VInt 9007199254740993; VNaN]] |})
     initial_state).1
  = inr {| Report.message := "Processed CSV file.";
           Report.added_users := 0;
           Report.skipped_users := 1;
           Report.skipped_names := ["9007199254740992.0"] |}.
Proof. vm_compute. reflexivity. Qed.

Example test_upload_csv_wrong_file_type :
  (@upload_users_csv example_runtime
     {| content_type := "text/plain"; read_csv := None;
        read_error := "No columns to parse from file" |} initial_state).1
  = inl InvalidFileType.
Proof. vm_compute. reflexivity. Qed.

Example test_delete_nonexistent_user :
  (delete_user "nonexistent-id" initial_state).1 = inl NotFound.
Proof. vm_compute. reflexivity. Qed.

(** The dictionary lists its entries in insertion order: a user who is
    deleted and created again comes last. *)
Example get_users_insertion_order :
  Stored.name <$> get_users
    (@serve_all example_runtime
       [PostUser (request "Liam" 22); PostUser (request "Linda" 28);
        DeleteUser "0"; PostUser (request "Liam" 22)]
       initial_state)
  = ["Linda"; "Liam"].
Proof. vm_compute. reflexivity. Qed.

Example test_get_average_age_with_non_numeric_age_in_db :
  @get_average_age_by_group example_runtime noah_state
  = Averages {[ "N" := f64_of_Z 40 ]}.
Proof. vm_compute. reflexivity. Qed.

(** Seventeen ages 0 and twenty-three ages 1 have the mean 0.575; the
    float nearest to it lies below, and the group is answered 0.57. *)
Example average_of_zeros_and_ones :
  round2 (mean (replicate 17 (f64_of_Z 0) ++ replicate 23 (f64_of_Z 1)))
  = f64_of_Q (57 # 100).
Proof. vm_compute. reflexivity. Qed.

(** Names that begin with different letters of the same first byte are
    in different groups. *)
Example groups_of_accented_names (RT : Runtime) :
  group_of "élan" = Some (str_upper "é")
  ∧ group_of "ãna" = Some (str_upper "ã").
Proof. split; reflexivity. Qed.

(** ** The properties at concrete inputs *)

Lemma create_duplicate_rejected_witness :
  ∃ σ',
    @create_user example_runtime (request "Bob" 26) bob_state
    = (inl (DuplicateName "Bob"), σ')
    ∧ users_db σ' = users_db bob_state.
Proof.
  apply (@create_duplicate_rejected example_runtime "Bob" 26 bob_state).
  exists "0", (stored "0" "Bob" 25). split; [vm_compute|]; reflexivity.
Defined.

Lemma upload_missing_column_rejected_witness :
  @upload_users_csv example_runtime (csv_file kevin_csv) initial_state
  = (inl SchemaMismatch, initial_state).
Proof.
  apply (@upload_missing_column_rejected example_runtime
           (csv_file kevin_csv) kevin_csv initial_state);
    [reflexivity|reflexivity|].
  left. cbn. intros H. apply list_elem_of_In in H. cbn in H.
  destruct H as [H|[]]. discriminate H.
Defined.

Lemma known_name_row_skipped_witness :
  ∃ σ' c',
    @loop_body example_runtime
      (heidi_state,
       {| added_count := 0; skipped_count := 0; skipped_names := [] |})
      [("Name", VStr "Heidi"); ("Age", VFloat 61)]
    = (σ', c')
    ∧ σ' = heidi_state
    ∧ added_count c' = 0
    ∧ skipped_count c' = 1
    ∧ skipped_names c' = ["Heidi"]
    ∧ count_named "Heidi" (users_db σ') = 1.
Proof.
  apply (@known_name_row_skipped example_runtime heidi_state
           {| added_count := 0; skipped_count := 0; skipped_names := [] |}
           [("Name", VStr "Heidi"); ("Age", VFloat 61)]
           "Heidi" (VFloat 61) 61).
  - apply (@serve_all_unique_names example_runtime), unique_names_empty.
  - exists "0", (stored "0" "Heidi" 60). split; [vm_compute|]; reflexivity.
  - reflexivity.
  - reflexivity.
  - reflexivity.
Defined.



Lemma every_row_counted_once_witness :
  ∃ report σ',
    @upload_users_csv example_runtime (csv_file heidi_csv) heidi_state
    = (inr report, σ')
    ∧ Report.added_users report + Report.skipped_users report = 3
    ∧ length (Report.skipped_names report) = Report.skipped_users report.
Proof.
  apply (@every_row_counted_once example_runtime
           (csv_file heidi_csv) heidi_csv heidi_state);
    [reflexivity|reflexivity| |].
  - apply list_elem_of_In. cbn. tauto.
  - apply list_elem_of_In. cbn. tauto.
Defined.

Lemma noah_state_nonempty : users_db noah_state ≠ ∅.
Proof. apply insert_non_empty. Defined.

Lemma noah_state_ordered : ordered noah_state.
Proof.
  split.
  - apply (bool_decide_unpack _). vm_compute. exact I.
  - intros k. cbn [noah_state users_db key_order].
    rewrite !elem_of_cons, elem_of_nil.
    destruct (decide (k = "manual1")) as [->|H1].
    + rewrite lookup_insert_eq. split; [by eexists|by left].
    + rewrite lookup_insert_ne by done.
      destruct (decide (k = "manual2")) as [->|H2].
      * rewrite lookup_insert_eq. split; [by eexists|by right; left].
      * rewrite lookup_insert_ne, lookup_empty by done.
        split; [by intros [|[|]]|by intros [? ?]].
Defined.

Lemma non_numeric_ages_excluded_witness :
  ∃ m,
    @get_average_age_by_group example_runtime noah_state = Averages m
    ∧ m = @average_ages example_runtime
            (filter (λ u, is_Some (@to_numeric example_runtime (Stored.age u)))
                    (users_list noah_state))
    ∧ (∀ i u, users_db noah_state !! i = Some u →
              @to_numeric example_runtime (Stored.age u) = None →
              @average_ages example_runtime
                (users_list (delete_user i noah_state).2) = m)
    ∧ (∀ k, (∀ i u, users_db noah_state !! i = Some u →
                    @group_of example_runtime (Stored.name u) = Some k →
                    @to_numeric example_runtime (Stored.age u) = None) →
            m !! k = None).
Proof.
  exact (@non_numeric_ages_excluded example_runtime noah_state
           noah_state_ordered noah_state_nonempty).
Defined.





Lemma empty_store_reports_no_users_witness :
  @get_average_age_by_group example_runtime initial_state
  = NoUsers "No users available to calculate average age."
  ∧ (∀ m, @get_average_age_by_group example_runtime initial_state
          ≠ Averages m)
  ∧ (∀ σ', users_db σ' ≠ ∅ →
           ∃ m, @get_average_age_by_group example_runtime σ' = Averages m).
Proof.
  apply (@empty_store_reports_no_users example_runtime initial_state).
  reflexivity.
Defined.

(** C9 as the specification words it fails: on the empty store a create
    with the empty name stores a record, and that record has an empty
    name. *)
Lemma empty_name_create_stores_record :
  let σ' := (@create_user example_runtime (request "" 30) initial_state).2 in
  users_db σ' !! "0" = Some (stored "0" "" 30)
  ∧ users_db σ' ≠ users_db initial_state
  ∧ ¬ names_nonempty (users_db σ').
Proof.
  cbn zeta.
  assert (users_db (@create_user example_runtime (request "" 30)
                      initial_state).2 !! "0"
          = Some (stored "0" "" 30)) as Hl by (vm_compute; reflexivity).
  split; [exact Hl|]. split.
  - intros Heq. rewrite Heq in Hl. cbn in Hl.
    rewrite lookup_empty in Hl. discriminate Hl.
  - intros Hne. by apply (Hne "0" _ Hl).
Qed.

Lemma create_accepts_empty_name_witness :
  names_nonempty
    (users_db (@serve_all example_runtime [PostUser (request "Alice" 30)]
                 initial_state))
  ∧ ∃ u σ',
      @create_user example_runtime (request "" 31)
        (@serve_all example_runtime [PostUser (request "Alice" 30)]
           initial_state)
      = (inr u, σ')
      ∧ users_db σ' !! User.id u = Some (stored (User.id u) "" 31).
Proof.
  apply (@create_accepts_empty_name example_runtime
           [PostUser (request "Alice" 30)] 31).
  constructor; [|constructor]. cbn. discriminate.
Defined.

(** * Further properties of the handlers *)

(** ** Create, list and delete *)

Section CreateListDelete.
Context `{RT : Runtime}.

(** A create with a new name succeeds: the response carries the requested
    name and age, the new record is listed afterwards, and when its
    identifier was not in use every record listed before is still listed. *)
Theorem create_then_listed (user_in : UserCreate.t) (σ : State) :
  ¬ has_name (users_db σ) (UserCreate.name user_in) →
  ∃ u σ',
    create_user user_in σ = (inr u, σ')
    ∧ User.name u = UserCreate.name user_in
    ∧ User.age u = UserCreate.age user_in
    ∧ users_db σ' !! User.id u = Some (model_dump u)
    ∧ model_dump u ∈ get_users σ'
    ∧ (users_db σ !! User.id u = None →
       ∀ r, r ∈ get_users σ → r ∈ get_users σ').
Proof.
  intros Hn. apply name_exists_false in Hn.
  unfold create_user. cbn. rewrite Hn. eexists _, _. split; [done|].
  unfold get_users. cbn [User.id User.name User.age].
  split; [done|]. split; [done|].
  split; [by cbn; rewrite lookup_insert_eq|]. split.
  - apply elem_of_users_list. eexists. cbn [store_user users_db User.id].
    by rewrite lookup_insert_eq.
  - intros Hfree r [j Hj]%elem_of_users_list. apply elem_of_users_list.
    exists j. cbn [store_user users_db User.id].
    rewrite lookup_insert_ne; [done|]. intros <-. congruence.
Qed.

(** The only way a create fails is the duplicate name: the error is then
    [DuplicateName] and some record does have the name. *)
Theorem create_fails_only_on_duplicate (user_in : UserCreate.t) σ e σ' :
  create_user user_in σ = (inl e, σ') →
  has_name (users_db σ) (UserCreate.name user_in)
  ∧ e = DuplicateName (UserCreate.name user_in)
  ∧ users_db σ' = users_db σ.
Proof.
  unfold create_user. cbn.
  destruct (name_exists (users_db σ) (UserCreate.name user_in)) eqn:Hex;
    [|done].
  intros [= <- <-]. by apply name_exists_spec in Hex.
Qed.

(** Deleting a stored record removes it and nothing else; with unique
    names the record is no longer listed, and the list is one shorter. *)
Theorem delete_removes_record (i : string) (r : Stored.t) (σ : State) :
  unique_names (users_db σ) →
  users_db σ !! i = Some r →
  ∃ σ',
    delete_user i σ = (inr tt, σ')
    ∧ users_db σ' !! i = None
    ∧ (∀ j, j ≠ i → users_db σ' !! j = users_db σ !! j)
    ∧ (r ∉ get_users σ')
    ∧ S (length (get_users σ')) = length (get_users σ).
Proof.
  intros Hu Hi. unfold delete_user. rewrite Hi. eexists. split; [done|].
  cbn [users_db]. split; [by rewrite lookup_delete_eq|]. split; [|split].
  - intros j Hj. by rewrite lookup_delete_ne.
  - unfold get_users. intros [j Hj]%elem_of_users_list.
    cbn [users_db] in Hj.
    apply lookup_delete_Some in Hj as [Hne Hj].
    apply Hne. by apply (Hu i j r r).
  - unfold get_users. rewrite !users_list_perm. cbn [users_db].
    by rewrite <- (Permutation_length (values_delete _ i r Hi)).
Qed.

(** Whatever the first delete of an identifier answered, a second one
    answers [NotFound] and changes nothing. *)
Theorem delete_twice_not_found (i : string) (σ : State) :
  delete_user i (delete_user i σ).2 = (inl NotFound, (delete_user i σ).2).
Proof.
  unfold delete_user at 2 3.
  destruct (users_db σ !! i) eqn:Hi; cbn.
  - unfold delete_user. cbn. by rewrite lookup_delete_eq.
  - unfold delete_user. by rewrite Hi.
Qed.

(** Creating a user under an unused identifier and deleting it by the
    identifier of the response gives back the store as it was. *)
Theorem create_delete_round_trip (user_in : UserCreate.t) (σ : State) :
  ¬ has_name (users_db σ) (UserCreate.name user_in) →
  users_db σ !! uuid4 (uuid_calls σ) = None →
  ∃ u σ1 σ2,
    create_user user_in σ = (inr u, σ1)
    ∧ delete_user (User.id u) σ1 = (inr tt, σ2)
    ∧ users_db σ2 = users_db σ.
Proof.
  intros Hn Hfree. apply name_exists_false in Hn.
  unfold create_user. cbn. rewrite Hn. eexists _, _, _. split; [done|].
  unfold delete_user, store_user.
  cbn [users_db uuid_calls User.id]. rewrite lookup_insert_eq.
  split; [done|]. cbn [users_db]. by rewrite delete_insert_id.
Qed.

(** Deleting a record frees its name: with unique names, a create with the
    name of the deleted record succeeds right after. *)
Theorem delete_frees_name (i : string) (r : Stored.t) (a : Z) (σ : State) :
  unique_names (users_db σ) →
  users_db σ !! i = Some r →
  ∃ σ1 u σ2,
    delete_user i σ = (inr tt, σ1)
    ∧ create_user {| UserCreate.name := Stored.name r; UserCreate.age := a |}
                  σ1 = (inr u, σ2)
    ∧ User.name u = Stored.name r.
Proof.
  intros Hu Hi. unfold delete_user. rewrite Hi. eexists _, _, _.
  split; [done|].
  assert (name_exists (delete i (users_db σ)) (Stored.name r) = false) as Hex.
  { apply name_exists_false. intros (j & v & Hj & Hv).
    apply lookup_delete_Some in Hj as [Hne Hj].
    apply Hne. by apply (Hu i j r v). }
  unfold create_user. cbn. rewrite Hex. done.
Qed.

(** With unique names the list of users has no two entries of the same
    name, and it has one entry per key of the store. *)
Theorem get_users_distinct_names (σ : State) :
  unique_names (users_db σ) →
  NoDup (Stored.name <$> get_users σ)
  ∧ length (get_users σ) = size (users_db σ).
Proof.
  intros Hu. unfold get_users. rewrite users_list_perm. unfold values.
  split.
  - rewrite <- list_fmap_compose.
    apply NoDup_fmap_2_strong; [|apply NoDup_map_to_list].
    intros [j u] [k v] Hj%elem_of_map_to_list Hk%elem_of_map_to_list Heq.
    cbn in Heq. assert (j = k) as -> by by eapply Hu. congruence.
  - by rewrite length_fmap, length_map_to_list.
Qed.

End CreateListDelete.

(** ** What the store holds *)

Section StoredRecords.
Context `{RT : Runtime}.

Lemma row_UserCreate_inv row d :
  row_UserCreate row = Some d →
  ∃ v, getitem row "Name" = Some (VStr (UserCreate.name d))
       ∧ getitem row "Age" = Some v
       ∧ py_int v = Some (UserCreate.age d).
Proof.
  unfold row_UserCreate. intros H.
  destruct (getitem row "Name") as [nm|]; [|done]. cbn in H.
  destruct (getitem row "Age") as [ag|]; [|done]. cbn in H.
  destruct (py_int ag) as [a|] eqn:Ha; [|done]. cbn in H.
  destruct nm; simplify_eq. by exists ag.
Qed.

Lemma stored_by_service_insert σ (u : User.t) n (l : list string) :
  stored_by_service σ →
  User.id u = uuid4 (uuid_calls σ) →
  (uuid_calls σ < n)%nat →
  stored_by_service
    {| users_db := <[User.id u := model_dump u]> (users_db σ);
       key_order := l;
       uuid_calls := n |}.
Proof.
  intros Hσ Hid Hn i r Hi. cbn [users_db uuid_calls] in *.
  destruct (decide (User.id u = i)) as [<-|Hne].
  - rewrite lookup_insert_eq in Hi. simplify_eq. cbn.
    split; [done|]. split; [by eexists|]. by exists (uuid_calls σ).
  - rewrite lookup_insert_ne in Hi by done.
    destruct (Hσ i r Hi) as (? & ? & k & Hk & ->).
    split; [done|]. split; [done|]. exists k. split; [lia|done].
Qed.

Lemma stored_by_service_calls σ n :
  stored_by_service σ → (uuid_calls σ <= n)%nat →
  stored_by_service
    {| users_db := users_db σ; key_order := key_order σ; uuid_calls := n |}.
Proof.
  intros Hσ Hn i r Hi. destruct (Hσ i r Hi) as (? & ? & k & Hk & ->).
  split; [done|]. split; [done|]. exists k. cbn. split; [lia|done].
Qed.

Lemma row_step_stored_by_service σ row o σ' :
  row_step σ row o σ' → stored_by_service σ → stored_by_service σ'.
Proof.
  destruct 1 as [| |σ row d Hrow Hn]; [done..|]. intros Hσ.
  unfold store_user, new_User. cbn [fst snd users_db uuid_calls User.id].
  apply (stored_by_service_insert σ
           {| User.id := uuid4 (uuid_calls σ);
              User.name := UserCreate.name d;
              User.age := UserCreate.age d |}); [done|done|lia].
Qed.

Lemma import_trace_stored_by_service σ rows os σ' :
  import_trace σ rows os σ' → stored_by_service σ → stored_by_service σ'.
Proof. induction 1; eauto using row_step_stored_by_service. Qed.

Lemma serve_stored_by_service σ r :
  stored_by_service σ → stored_by_service (serve σ r).
Proof.
  intros Hσ. destruct r as [user_in| |user_id|file|]; cbn [serve]; try done.
  - unfold create_user. cbn.
    destruct (name_exists (users_db σ) (UserCreate.name user_in)); cbn.
    + apply (stored_by_service_calls σ); [done|lia].
    + apply (stored_by_service_insert σ
               {| User.id := uuid4 (uuid_calls σ);
                  User.name := UserCreate.name user_in;
                  User.age := UserCreate.age user_in |});
        [done|done|cbn; lia].
  - unfold delete_user. destruct (users_db σ !! user_id); [|done].
    intros j v Hj. cbn [snd users_db] in Hj.
    apply lookup_delete_Some in Hj as [_ Hj]. by apply (Hσ j v).
  - destruct (upload_users_csv_trace file σ) as (rows & os & Htr & _).
    by eapply import_trace_stored_by_service.
Qed.

Lemma serve_all_stored_by_service rs :
  stored_by_service (serve_all rs initial_state).
Proof.
  assert (stored_by_service initial_state) as H0.
  { intros i r Hi. cbn in Hi. by rewrite lookup_empty in Hi. }
  revert H0. generalize initial_state.
  induction rs as [|r rs IH]; intros σ Hσ; [done|].
  apply IH. by apply serve_stored_by_service.
Qed.

(** Through the handlers alone, from the empty store: every record is
    filed under its own [id], which is a generated identifier, its age is
    an integer, and the list of users has no two entries of the same
    [id]. *)
Theorem served_store_well_formed (rs : list Request) :
  stored_by_service (serve_all rs initial_state)
  ∧ NoDup (Stored.id <$> get_users (serve_all rs initial_state)).
Proof.
  pose proof (serve_all_stored_by_service rs) as Hσ.
  split; [done|]. unfold get_users. rewrite users_list_perm.
  unfold values. rewrite <- list_fmap_compose.
  apply NoDup_fmap_2_strong; [|apply NoDup_map_to_list].
  intros [j u] [k v] Hj%elem_of_map_to_list Hk%elem_of_map_to_list Heq.
  cbn in Heq.
  destruct (Hσ j u Hj) as (Hju & _). destruct (Hσ k v Hk) as (Hkv & _).
  assert (j = k) as -> by congruence. congruence.
Qed.

End StoredRecords.

(** ** The upload as a whole *)

Section Upload.
Context `{RT : Runtime}.

(** An upload that answers with a report has run the rows of its table. *)
Lemma upload_report_inv file σ report σ' :
  upload_users_csv file σ = (inr report, σ') →
  content_type file = "text/csv"
  ∧ ∃ df os,
      read_csv file = Some df
      ∧ "Name" ∈ columns df ∧ "Age" ∈ columns df
      ∧ import_trace σ (iterrows df) os σ'
      ∧ report = {| Report.message := "Processed CSV file.";
                    Report.added_users := length (filter is_added os);
                    Report.skipped_users := length (omap skipped_name os);
                    Report.skipped_names := omap skipped_name os |}.
Proof.
  intros Hup.
  destruct (String.eqb (content_type file) "text/csv") eqn:Hct;
    [|unfold upload_users_csv in Hup; by rewrite Hct in Hup].
  destruct (read_csv file) as [df|] eqn:Hcsv;
    [|unfold upload_users_csv in Hup; by rewrite Hct, Hcsv in Hup].
  destruct (has_required_columns df) eqn:Hcols;
    [|unfold upload_users_csv in Hup; by rewrite Hct, Hcsv, Hcols in Hup].
  apply String.eqb_eq in Hct. split; [done|].
  destruct (upload_accepted file df σ Hct Hcsv Hcols) as (os & σ1 & Htr & Hup').
  rewrite Hup' in Hup. simplify_eq.
  apply has_required_columns_spec in Hcols as [HN HA].
  by exists df, os.
Qed.

(** An upload that answers with an error has changed nothing, and the
    error has status 400.  The content type is checked first, then whether
    the contents parse (the detail then ends with the text of the
    exception), then the columns. *)
Theorem upload_error_changes_nothing file σ e σ' :
  upload_users_csv file σ = (inl e, σ') →
  σ' = σ
  ∧ status_code e = 400%Z
  ∧ (content_type file ≠ "text/csv" → e = InvalidFileType)
  ∧ (content_type file = "text/csv" →
     match read_csv file with
     | None =>
         detail e = "Error processing CSV file: " +:+ read_error file
     | Some df =>
         e = SchemaMismatch ∧ ("Name" ∉ columns df ∨ "Age" ∉ columns df)
     end).
Proof.
  intros Hup. unfold upload_users_csv in Hup.
  destruct (String.eqb (content_type file) "text/csv") eqn:Hct;
    cbn [negb] in Hup.
  - apply String.eqb_eq in Hct.
    destruct (read_csv file) as [df|] eqn:Hcsv.
    + destruct (has_required_columns df) eqn:Hcols; cbn [negb] in Hup.
      * destruct (import_rows (iterrows df) _) as [σ1 c1]. discriminate Hup.
      * simplify_eq. split; [done|]. split; [done|]. split; [done|].
        intros _. split; [done|].
        destruct (decide ("Name" ∈ columns df)) as [HN|HN]; [|by left].
        destruct (decide ("Age" ∈ columns df)) as [HA|HA]; [|by right].
        assert (has_required_columns df = true) as Hyes
          by by apply has_required_columns_spec.
        congruence.
    + simplify_eq. by repeat split.
  - apply String.eqb_neq in Hct. simplify_eq. by repeat split.
Qed.

(** The upload answers with a report exactly when the file is declared as
    CSV, its contents parse, and the table has both columns; more columns,
    in any order, do not matter. *)
Theorem upload_accepted_iff file σ :
  (∃ report σ', upload_users_csv file σ = (inr report, σ'))
  ↔ content_type file = "text/csv"
    ∧ ∃ df, read_csv file = Some df
            ∧ "Name" ∈ columns df ∧ "Age" ∈ columns df.
Proof.
  split.
  - intros (report & σ' & Hup).
    apply upload_report_inv in Hup as (Hct & df & os & Hcsv & HN & HA & _).
    split; [done|]. by exists df.
  - intros (Hct & df & Hcsv & HN & HA).
    assert (has_required_columns df = true) as Hcols
      by by apply has_required_columns_spec.
    destruct (upload_accepted file df σ Hct Hcsv Hcols) as (os & σ' & _ & Hup).
    eauto.
Qed.

(** The loop body reads the [Name] and the [Age] cell of a row and nothing
    else: rows that agree on these two cells are treated alike. *)
Theorem loop_body_reads_name_and_age acc (row1 row2 : Series) :
  getitem row1 "Name" = getitem row2 "Name" →
  getitem row1 "Age" = getitem row2 "Age" →
  loop_body acc row1 = loop_body acc row2.
Proof.
  intros HN HA. destruct acc as [σ c].
  assert (row_UserCreate row1 = row_UserCreate row2) as Hrow.
  { unfold row_UserCreate. by rewrite HN, HA. }
  unfold loop_body. rewrite Hrow. unfold get. by rewrite HN.
Qed.

Lemma row_step_provenance σ row o σ' i r :
  row_step σ row o σ' →
  users_db σ' !! i = Some r →
  users_db σ !! i = Some r ∨ from_row row r.
Proof.
  destruct 1 as [| |σ row d Hrow Hn]; [by left..|].
  unfold store_user, new_User. cbn [fst snd users_db User.id].
  intros Hi. destruct (decide (uuid4 (uuid_calls σ) = i)) as [<-|Hne].
  - rewrite lookup_insert_eq in Hi. simplify_eq. right.
    destruct (row_UserCreate_inv row d Hrow) as (v & HN & HA & Hint).
    by exists v, (UserCreate.age d).
  - rewrite lookup_insert_ne in Hi by done. by left.
Qed.

Lemma import_trace_provenance σ rows os σ' :
  import_trace σ rows os σ' →
  ∀ i r, users_db σ' !! i = Some r →
         users_db σ !! i = Some r ∨ ∃ row, row ∈ rows ∧ from_row row r.
Proof.
  induction 1 as [|σ row o σ1 rows os σ2 Hstep Htr IH]; intros i r Hi;
    [by left|].
  destruct (IH i r Hi) as [H1|(row' & Hin & Hfrom)].
  - destruct (row_step_provenance _ _ _ _ i r Hstep H1) as [H0|Hfrom];
      [by left|].
    right. exists row. split; [apply elem_of_cons; by left|done].
  - right. exists row'. split; [apply elem_of_cons; by right|done].
Qed.

(** After an upload every record of the store either was there before,
    under the same key, or comes from a row of the table: its name is the
    text of the row's [Name] cell and its age is [int] of the [Age] cell.
    Rows that raise never reach the store. *)
Theorem upload_stores_only_rows file df σ report σ' :
  read_csv file = Some df →
  upload_users_csv file σ = (inr report, σ') →
  ∀ i r, users_db σ' !! i = Some r →
         users_db σ !! i = Some r
         ∨ ∃ row, row ∈ iterrows df ∧ from_row row r.
Proof.
  intros Hcsv Hup.
  apply upload_report_inv in Hup as (_ & df' & os & Hcsv' & _ & _ & Htr & _).
  assert (df' = df) as -> by congruence.
  by apply (import_trace_provenance σ (iterrows df) os σ').
Qed.

End Upload.

(** ** Uploads with fresh identifiers *)

Section FreshUploads.
Context `{RT : Runtime}.
Hypothesis uuid4_fresh : uuid4_distinct.

Lemma row_step_fresh σ row o σ' :
  row_step σ row o σ' →
  fresh_from (users_db σ) (uuid_calls σ) →
  fresh_from (users_db σ') (uuid_calls σ').
Proof.
  destruct 1 as [| |σ row d Hrow Hn]; [done..|]. intros Hfresh k Hk.
  unfold store_user, new_User in *.
  cbn [fst snd users_db uuid_calls User.id] in *.
  rewrite lookup_insert_ne.
  - apply Hfresh. lia.
  - intros Heq. apply uuid4_fresh in Heq. lia.
Qed.

Lemma added_in_single (o : Outcome) :
  length (filter is_added [o]) = if is_added o then 1%nat else 0%nat.
Proof.
  rewrite filter_cons, filter_nil.
  destruct o; cbn [is_added];
    [rewrite decide_True by done|rewrite decide_False by (cbn; tauto)..];
    done.
Qed.

Lemma row_step_grows σ row o σ' :
  row_step σ row o σ' →
  fresh_from (users_db σ) (uuid_calls σ) →
  users_db σ ⊆ users_db σ'
  ∧ size (users_db σ') = size (users_db σ) + length (filter is_added [o]).
Proof.
  rewrite added_in_single.
  destruct 1 as [| |σ row d Hrow Hn]; intros Hfresh; cbn [is_added].
  - split; [done|]. lia.
  - split; [done|]. lia.
  - unfold store_user, new_User. cbn [fst snd users_db User.id].
    assert (users_db σ !! uuid4 (uuid_calls σ) = None) as Hfree
      by (apply Hfresh; lia).
    split; [by apply insert_subseteq|].
    rewrite map_size_insert_None by done. lia.
Qed.

Lemma import_trace_fresh σ rows os σ' :
  import_trace σ rows os σ' →
  fresh_from (users_db σ) (uuid_calls σ) →
  fresh_from (users_db σ') (uuid_calls σ').
Proof. induction 1; eauto using row_step_fresh. Qed.

Lemma import_trace_grows σ rows os σ' :
  import_trace σ rows os σ' →
  fresh_from (users_db σ) (uuid_calls σ) →
  users_db σ ⊆ users_db σ'
  ∧ size (users_db σ') = size (users_db σ) + length (filter is_added os).
Proof.
  induction 1 as [|σ row o σ1 rows os σ2 Hstep Htr IH]; intros Hfresh.
  - split; [done|]. rewrite filter_nil. cbn [length]. lia.
  - destruct (row_step_grows _ _ _ _ Hstep Hfresh) as [Hsub1 Hsize1].
    destruct (IH (row_step_fresh _ _ _ _ Hstep Hfresh)) as [Hsub2 Hsize2].
    split; [by etrans|].
    change (o :: os) with ([o] ++ os). rewrite filter_app, length_app. lia.
Qed.

(** With fresh identifiers an upload only adds: every record of the store
    is kept as it was, and the store grows by as many records as the
    report counts as added. *)
Theorem upload_only_adds file σ report σ' :
  fresh_from (users_db σ) (uuid_calls σ) →
  upload_users_csv file σ = (inr report, σ') →
  users_db σ ⊆ users_db σ'
  ∧ size (users_db σ') = size (users_db σ) + Report.added_users report.
Proof.
  intros Hfresh Hup.
  apply upload_report_inv in Hup as (_ & df & os & _ & _ & _ & Htr & ->).
  by apply (import_trace_grows σ (iterrows df) os σ').
Qed.

Lemma row_step_name_present σ row o σ' d :
  row_step σ row o σ' →
  row_UserCreate row = Some d →
  has_name (users_db σ') (UserCreate.name d).
Proof.
  destruct 1 as [σ row Hrow|σ row d' Hrow Hn|σ row d' Hrow Hn]; intros Hd.
  - congruence.
  - by assert (d' = d) as -> by congruence.
  - assert (d' = d) as -> by congruence.
    eexists _, _. unfold store_user. cbn [users_db].
    split; [apply lookup_insert_eq|done].
Qed.

Lemma import_trace_names_present σ rows os σ' :
  import_trace σ rows os σ' →
  fresh_from (users_db σ) (uuid_calls σ) →
  ∀ row d, row ∈ rows → row_UserCreate row = Some d →
           has_name (users_db σ') (UserCreate.name d).
Proof.
  induction 1 as [|σ row o σ1 rows os σ2 Hstep Htr IH];
    intros Hfresh row' d Hin Hd.
  - by apply elem_of_nil in Hin.
  - pose proof (row_step_fresh _ _ _ _ Hstep Hfresh) as Hfresh1.
    apply elem_of_cons in Hin as [->|Hin].
    + destruct (import_trace_grows _ _ _ _ Htr Hfresh1) as [Hsub _].
      eapply has_name_weaken; [done|]. by eapply row_step_name_present.
    + by eapply IH.
Qed.

(** With fresh identifiers and unique names, after an upload every row
    that has a name and an age [int] accepts is represented by exactly one
    record of that name, whether the row was added or skipped, also when
    the table has the name more than once. *)
Theorem upload_valid_rows_present file df σ report σ' row n v a :
  unique_names (users_db σ) →
  fresh_from (users_db σ) (uuid_calls σ) →
  read_csv file = Some df →
  upload_users_csv file σ = (inr report, σ') →
  row ∈ iterrows df →
  getitem row "Name" = Some (VStr n) →
  getitem row "Age" = Some v →
  py_int v = Some a →
  count_named n (users_db σ') = 1.
Proof.
  intros Hu Hfresh Hcsv Hup Hin HN HA Hint.
  apply upload_report_inv in Hup as (_ & df' & os & Hcsv' & _ & _ & Htr & _).
  assert (df' = df) as -> by congruence.
  apply count_named_unique; [by eapply import_trace_unique_names|].
  apply (import_trace_names_present _ _ _ _ Htr Hfresh row
           {| UserCreate.name := n; UserCreate.age := a |} Hin).
  by eapply row_UserCreate_text.
Qed.

Lemma import_trace_all_known σ rows os σ' :
  import_trace σ rows os σ' →
  (∀ row d, row ∈ rows → row_UserCreate row = Some d →
            has_name (users_db σ) (UserCreate.name d)) →
  σ' = σ ∧ filter is_added os = [].
Proof.
  induction 1 as [|σ row o σ1 rows os σ2 Hstep Htr IH]; intros Hknown;
    [done|].
  assert (σ1 = σ ∧ is_added o = false) as [-> Ho].
  { destruct Hstep as [| |σ row d Hrow Hn]; [done..|].
    destruct Hn. apply (Hknown row d); [apply elem_of_cons; by left|done]. }
  destruct IH as [-> Hos].
  { intros row' d Hin. apply Hknown, elem_of_cons. by right. }
  split; [done|]. rewrite filter_cons, decide_False; [done|].
  rewrite Ho. by intros [].
Qed.

(** With fresh identifiers uploading is idempotent: the same file uploaded
    again right away adds nothing, leaves the state as it is, and reports
    every row as skipped. *)
Theorem upload_twice_adds_nothing file σ report σ' :
  fresh_from (users_db σ) (uuid_calls σ) →
  upload_users_csv file σ = (inr report, σ') →
  ∃ report',
    upload_users_csv file σ' = (inr report', σ')
    ∧ Report.added_users report' = 0
    ∧ Report.skipped_users report'
      = Report.added_users report + Report.skipped_users report.
Proof.
  intros Hfresh Hup.
  apply upload_report_inv in Hup
    as (Hct & df & os & Hcsv & HN & HA & Htr & ->).
  assert (has_required_columns df = true) as Hcols
    by by apply has_required_columns_spec.
  destruct (upload_accepted file df σ' Hct Hcsv Hcols)
    as (os' & σ'' & Htr' & Hup').
  destruct (import_trace_all_known _ _ _ _ Htr') as [-> Hnone].
  { intros row d. by apply (import_trace_names_present _ _ _ _ Htr Hfresh). }
  eexists. split; [exact Hup'|]. cbn [Report.added_users Report.skipped_users].
  rewrite Hnone. split; [done|].
  pose proof (outcomes_partition os) as Hos.
  pose proof (outcomes_partition os') as Hos'.
  rewrite Hnone in Hos'.
  rewrite (import_trace_length _ _ _ _ Htr) in Hos.
  rewrite (import_trace_length _ _ _ _ Htr') in Hos'.
  cbn [length] in Hos'. lia.
Qed.

End FreshUploads.

(** ** More on the averages *)

Section MoreAggregation.
Context `{RT : Runtime}.

(** The groups of the answer are exactly those under which some record
    with a numeric age is filed. *)
Theorem average_groups (σ : State) (m : gmap string float64) (k : string) :
  get_average_age_by_group σ = Averages m →
  is_Some (m !! k) ↔ contributes k (users_db σ).
Proof.
  intros [_ ->]%get_average_age_inv. apply average_ages_is_Some.
Qed.

(** The answer depends on the names and ages as the dictionary lists
    them and on nothing else: two stores that list the same names with the
    same ages in the same order, under whatever identifiers, get the same
    answer. *)
Theorem average_ignores_identifiers (σ1 σ2 : State) :
  (λ r, (Stored.name r, Stored.age r)) <$> get_users σ1
  = (λ r, (Stored.name r, Stored.age r)) <$> get_users σ2 →
  get_average_age_by_group σ1 = get_average_age_by_group σ2.
Proof.
  unfold get_users. intros Heq.
  assert (users_db σ1 = ∅ ↔ users_db σ2 = ∅) as Hempty.
  { rewrite <- !users_list_nil. split; intros Hnil; rewrite Hnil in Heq.
    - symmetry in Heq. by apply fmap_nil_inv in Heq.
    - by apply fmap_nil_inv in Heq. }
  unfold get_average_age_by_group.
  destruct (decide (users_db σ1 = ∅)) as [H1|H1],
           (decide (users_db σ2 = ∅)) as [H2|H2]; [done|tauto|tauto|].
  f_equal. unfold average_ages. by rewrite (dropna_names_ages _ _ Heq).
Qed.

(** Through the handlers alone no user is left out of the averages except
    for an empty name: the group of every stored record with a non-empty
    name is in the answer. *)
Theorem served_users_all_counted (rs : list Request) i r :
  users_db (serve_all rs initial_state) !! i = Some r →
  Stored.name r ≠ "" →
  ∃ m k v,
    get_average_age_by_group (serve_all rs initial_state) = Averages m
    ∧ group_of (Stored.name r) = Some k
    ∧ m !! k = Some v.
Proof.
  intros Hi Hname.
  pose proof (serve_all_stored_by_service rs) as Hσ.
  destruct (Hσ i r Hi) as (_ & [a Ha] & _).
  assert (users_db (serve_all rs initial_state) ≠ ∅) as Hne.
  { intros Hempty. rewrite Hempty in Hi. by rewrite lookup_empty in Hi. }
  destruct (group_of (Stored.name r)) as [k|] eqn:Hk;
    [|by destruct (Stored.name r)].
  assert (is_Some (average_ages (users_list (serve_all rs initial_state))
                     !! k)) as [v Hv].
  { apply average_ages_is_Some.
    exists i, r, (f64_of_Z a). split; [done|]. split; [done|].
    by rewrite Ha. }
  eexists _, k, v. split; [by apply get_average_age_nonempty|done].
Qed.

End MoreAggregation.

(** ** The further properties at concrete inputs *)

Lemma example_uuid4_distinct : @uuid4_distinct example_runtime.
Proof. intros j k H. cbn in H. by apply (inj pretty) in H. Defined.

Lemma initial_state_fresh :
  @fresh_from example_runtime (users_db initial_state)
    (uuid_calls initial_state).
Proof. intros k _. apply lookup_empty. Defined.

Lemma eve_state_unique : unique_names (users_db eve_state).
Proof.
  apply (@serve_all_unique_names example_runtime), unique_names_empty.
Defined.

Lemma eve_state_lookup :
  users_db eve_state !! "0" = Some (stored "0" "Eve" 28).
Proof. vm_compute. reflexivity. Defined.

Lemma create_then_listed_witness :
  ∃ u σ',
    @create_user example_runtime (request "Alice" 30) initial_state
    = (inr u, σ')
    ∧ User.name u = "Alice"
    ∧ User.age u = 30%Z
    ∧ users_db σ' !! User.id u = Some (model_dump u)
    ∧ model_dump u ∈ get_users σ'
    ∧ (users_db initial_state !! User.id u = None →
       ∀ r, r ∈ get_users initial_state → r ∈ get_users σ').
Proof.
  apply (@create_then_listed example_runtime (request "Alice" 30)
           initial_state).
  apply has_name_empty.
Defined.

Lemma create_fails_only_on_duplicate_witness :
  has_name (users_db bob_state) "Bob"
  ∧ DuplicateName "Bob" = DuplicateName "Bob"
  ∧ users_db (@create_user example_runtime (request "Bob" 26) bob_state).2
    = users_db bob_state.
Proof.
  apply (@create_fails_only_on_duplicate example_runtime
           (request "Bob" 26) bob_state (DuplicateName "Bob")
           (@create_user example_runtime (request "Bob" 26) bob_state).2).
  vm_compute. reflexivity.
Defined.

Lemma delete_removes_record_witness :
  ∃ σ',
    delete_user "0" eve_state = (inr tt, σ')
    ∧ users_db σ' !! "0" = None
    ∧ (∀ j, j ≠ "0" → users_db σ' !! j = users_db eve_state !! j)
    ∧ (stored "0" "Eve" 28 ∉ get_users σ')
    ∧ S (length (get_users σ')) = length (get_users eve_state).
Proof.
  exact (delete_removes_record "0" (stored "0" "Eve" 28) eve_state
           eve_state_unique eve_state_lookup).
Defined.

Lemma create_delete_round_trip_witness :
  ∃ u σ1 σ2,
    @create_user example_runtime (request "Eve" 28) initial_state
    = (inr u, σ1)
    ∧ delete_user (User.id u) σ1 = (inr tt, σ2)
    ∧ users_db σ2 = users_db initial_state.
Proof.
  apply (@create_delete_round_trip example_runtime (request "Eve" 28)
           initial_state).
  - apply has_name_empty.
  - apply lookup_empty.
Defined.

Lemma delete_frees_name_witness :
  ∃ σ1 u σ2,
    delete_user "0" eve_state = (inr tt, σ1)
    ∧ @create_user example_runtime (request "Eve" 29) σ1 = (inr u, σ2)
    ∧ User.name u = "Eve".
Proof.
  exact (@delete_frees_name example_runtime "0" (stored "0" "Eve" 28) 29
           eve_state eve_state_unique eve_state_lookup).
Defined.

Lemma get_users_distinct_names_witness :
  NoDup (Stored.name <$> get_users eve_state)
  ∧ length (get_users eve_state) = size (users_db eve_state).
Proof. exact (get_users_distinct_names eve_state eve_state_unique). Defined.

Lemma upload_error_changes_nothing_witness :
  (@upload_users_csv example_runtime (csv_file kevin_csv) initial_state).2
  = initial_state
  ∧ status_code SchemaMismatch = 400%Z
  ∧ (content_type (csv_file kevin_csv) ≠ "text/csv" →
     SchemaMismatch = InvalidFileType)
  ∧ (content_type (csv_file kevin_csv) = "text/csv" →
     SchemaMismatch = SchemaMismatch
     ∧ ("Name" ∉ columns kevin_csv ∨ "Age" ∉ columns kevin_csv)).
Proof.
  apply (@upload_error_changes_nothing example_runtime (csv_file kevin_csv)
           initial_state SchemaMismatch
           (@upload_users_csv example_runtime (csv_file kevin_csv)
              initial_state).2).
  vm_compute. reflexivity.
Defined.

Lemma loop_body_reads_name_and_age_witness :
  @loop_body example_runtime
    (initial_state,
     {| added_count := 0; skipped_count := 0; skipped_names := [] |})
    ivy_row_wide
  = @loop_body example_runtime
      (initial_state,
       {| added_count := 0; skipped_count := 0; skipped_names := [] |})
      ivy_row.
Proof.
  apply (@loop_body_reads_name_and_age example_runtime); reflexivity.
Defined.

Lemma heidi_upload :
  @upload_users_csv example_runtime (csv_file heidi_csv) initial_state
  = (inr {| Report.message := "Processed CSV file.";
            Report.added_users := 2;
            Report.skipped_users := 1;
            Report.skipped_names := ["Judy"] |},
     (@upload_users_csv example_runtime (csv_file heidi_csv)
        initial_state).2).
Proof. vm_compute. reflexivity. Defined.

Lemma upload_stores_only_rows_witness :
  users_db initial_state !! "1" = Some (stored "1" "Ivy" 65)
  ∨ ∃ row, row ∈ iterrows heidi_csv
           ∧ @from_row example_runtime row (stored "1" "Ivy" 65).
Proof.
  apply (@upload_stores_only_rows example_runtime (csv_file heidi_csv)
           heidi_csv initial_state _ _ eq_refl heidi_upload
           "1" (stored "1" "Ivy" 65)).
  vm_compute. reflexivity.
Defined.

Lemma upload_only_adds_witness :
  users_db initial_state
  ⊆ users_db (@upload_users_csv example_runtime (csv_file heidi_csv)
                initial_state).2
  ∧ size (users_db (@upload_users_csv example_runtime (csv_file heidi_csv)
                      initial_state).2)
    = size (users_db initial_state) + 2.
Proof.
  exact (@upload_only_adds example_runtime example_uuid4_distinct
           (csv_file heidi_csv) initial_state _ _
           initial_state_fresh heidi_upload).
Defined.

Lemma upload_valid_rows_present_witness :
  count_named "Ivy"
    (users_db (@upload_users_csv example_runtime (csv_file heidi_csv)
                 initial_state).2) = 1.
Proof.
  apply (@upload_valid_rows_present example_runtime example_uuid4_distinct
           (csv_file heidi_csv) heidi_csv initial_state _ _
           ivy_row "Ivy" (VFloat 65) 65
           unique_names_empty initial_state_fresh eq_refl heidi_upload).
  - apply list_elem_of_In. cbn. right. left. reflexivity.
  - reflexivity.
  - reflexivity.
  - reflexivity.
Defined.

Lemma upload_twice_adds_nothing_witness :
  ∃ report',
    @upload_users_csv example_runtime (csv_file heidi_csv)
      (@upload_users_csv example_runtime (csv_file heidi_csv)
         initial_state).2
    = (inr report',
       (@upload_users_csv example_runtime (csv_file heidi_csv)
          initial_state).2)
    ∧ Report.added_users report' = 0
    ∧ Report.skipped_users report' = 2 + 1.
Proof.
  exact (@upload_twice_adds_nothing example_runtime example_uuid4_distinct
           (csv_file heidi_csv) initial_state _ _
           initial_state_fresh heidi_upload).
Defined.

Lemma noah_average :
  @get_average_age_by_group example_runtime noah_state
  = Averages {[ "N" := f64_of_Z 40 ]}.
Proof. vm_compute. reflexivity. Defined.

Lemma average_groups_witness :
  is_Some (({[ "N" := f64_of_Z 40 ]} : gmap string float64) !! "N")
  ↔ @contributes example_runtime "N" (users_db noah_state).
Proof.
  exact (@average_groups example_runtime noah_state _ "N" noah_average).
Defined.

Lemma average_ignores_identifiers_witness :
  @get_average_age_by_group example_runtime eve_state
  = @get_average_age_by_group example_runtime
      {| users_db := {[ "manual" := stored "manual" "Eve" 28 ]};
         key_order := ["manual"];
         uuid_calls := 0 |}.
Proof.
  apply (@average_ignores_identifiers example_runtime).
  vm_compute. reflexivity.
Defined.

Lemma served_users_all_counted_witness :
  ∃ m k v,
    @get_average_age_by_group example_runtime eve_state = Averages m
    ∧ @group_of example_runtime "Eve" = Some k
    ∧ m !! k = Some v.
Proof.
  apply (@served_users_all_counted example_runtime
           [PostUser (request "Eve" 28)] "0" (stored "0" "Eve" 28)).
  - exact eve_state_lookup.
  - discriminate.
Defined.
